(** * Switchmate: the signing engine, the notification dispatcher and the
      device protocol driver of [switchmate.py], embedded in Rocq.

    Python 2 byte strings ([str]) are lists of [Byte.byte]; Python integers
    are [Z] (unbounded, with two's-complement bit operations, which is what
    [Z.land], [Z.lor], [Z.lxor] and the shifts compute); the wrap-around of
    [ctypes.c_int64] is written out.  Printing, GATT writes, disconnecting
    and leaving the process are events of a trace. *)

From Stdlib Require Import ZArith List Bool Lia.
From Stdlib.Strings Require Import String Ascii Byte.
Import ListNotations.

Local Open Scope Z_scope.

(* ================================================================== *)
(** ** Byte strings *)

Definition bytes := list byte.

(** [ord(c)] on a one-character byte string. *)
Definition ord (c : byte) : Z := Z.of_N (Byte.to_N c).

(** The byte whose code is [z]; only used with [0 <= z < 256]. *)
Definition chr (z : Z) : byte :=
  match Byte.of_N (Z.to_N z) with
  | Some b => b
  | None => x00
  end.

(** [len(s)]. *)
Definition len {A} (s : list A) : Z := Z.of_nat (List.length s).

(* ================================================================== *)
(** ** Results of fallible Python code *)

Inductive exn :=
| IndexError      (* string index out of range *)
| StructError.    (* struct.error: integer out of range for 'Q' format *)

Inductive result (A : Type) :=
| Ok (a : A)
| Raise (e : exn).
Arguments Ok {A} a.
Arguments Raise {A} e.

Definition rbind {A B} (r : result A) (k : A -> result B) : result B :=
  match r with
  | Ok a => k a
  | Raise e => Raise e
  end.

Declare Scope result_scope.
Delimit Scope result_scope with result.
Notation "'let?' x ':=' r 'in' k" := (rbind r (fun x => k))
  (at level 10, x name, r at level 100, k at level 200) : result_scope.

(** [s[i]] for a non-negative literal index [i]. *)
Definition index (s : bytes) (i : nat) : result byte :=
  match nth_error s i with
  | Some c => Ok c
  | None => Raise IndexError
  end.

(** [s[-1]]. *)
Definition index_last (s : bytes) : result byte :=
  match rev s with
  | c :: _ => Ok c
  | [] => Raise IndexError
  end.

(* ================================================================== *)
(** ** Signing engine ([c_mul], [sign]) *)

Module Sign.

Local Open Scope result_scope.

(** [ctypes.c_int64(v).value] for [0 <= v < 2^64]: the value read back as a
    signed 64-bit integer. *)
Definition c_int64_value (v : Z) : Z :=
  if v <? 2 ^ 63 then v else v - 2 ^ 64.

(** [c_mul(a, b)]: [ctypes.c_int64((long(a) * b) & 0xffffffffffffffff).value]. *)
Definition c_mul (a b : Z) : Z :=
  c_int64_value (Z.land (a * b) 0xffffffffffffffff).

(** The body of [for c in blob], run over the characters [cs] still to
    come; [n] is [len(blob)]. *)
Fixpoint sign_loop (n : Z) (cs : bytes) (x : Z) : Z :=
  match cs with
  | [] => x
  | c :: cs' =>
      let x1 := c_mul 1000003 x in
      sign_loop n cs' (Z.lxor (Z.lxor x1 (ord c)) n)
  end.

(** [struct.pack('<Q', v)]: eight bytes, least significant first;
    [struct.error] when [v] is not an unsigned 64-bit value. *)
Definition struct_pack_Q (v : Z) : result bytes :=
  if (0 <=? v) && (v <? 2 ^ 64) then
    Ok (map (fun i => chr (Z.land (Z.shiftr v (8 * i)) 0xff))
            [0; 1; 2; 3; 4; 5; 6; 7])
  else Raise StructError.

(** The argument of [struct.pack] in [sign]:
    [shifted_hash | shifted_data_0 | shifted_data_1]. *)
Definition sign_combined (data key : bytes) : result Z :=
  let blob := data ++ key in
  let? b0 := index blob 0 in
  let x := Z.shiftl (ord b0) 7 in
  let x := sign_loop (len blob) blob x in
  let shifted_hash := Z.shiftl (Z.land x 0xffffffff) 16 in
  let? d0 := index data 0 in
  let shifted_data_0 := Z.shiftl (ord d0) 48 in
  let? d1 := index data 1 in
  let shifted_data_1 := Z.shiftl (ord d1) 56 in
  Ok (Z.lor (Z.lor shifted_hash shifted_data_0) shifted_data_1).

(** [sign(data, key)]. *)
Definition sign (data key : bytes) : result bytes :=
  let? v := sign_combined data key in
  let? packed8 := struct_pack_Q v in
  Ok (skipn 2 packed8).

(** The accumulator [x] when the loop of [sign] is over, for a non-empty
    [blob]. *)
Definition hash_of (blob : bytes) : Z :=
  sign_loop (len blob) blob (Z.shiftl (ord (hd x00 blob)) 7).

(** The three bit fields of the packed value, added instead of ORed. *)
Definition fields (x : Z) (d0 d1 : byte) : Z :=
  Z.land x 0xffffffff * 2 ^ 16 + ord d0 * 2 ^ 48 + ord d1 * 2 ^ 56.

(** *** The signing algorithm as the specification words it *)

(** [wrap64]: keep the low 64 bits, read as a two's-complement signed
    64-bit integer. *)
Definition wrap64 (p : Z) : Z := (p + 2 ^ 63) mod 2 ^ 64 - 2 ^ 63.

(** One mixing step: [x = wrap64(x * 1000003) XOR c XOR length(blob)]. *)
Definition mix (n : Z) (x : Z) (c : byte) : Z :=
  Z.lxor (Z.lxor (wrap64 (x * 1000003)) (ord c)) n.

(** The [k] low-order bytes of [v], least significant first. *)
Fixpoint le_bytes (k : nat) (v : Z) : bytes :=
  match k with
  | O => []
  | S k' => chr (v mod 256) :: le_bytes k' (v / 256)
  end.

(** The reference algorithm on a non-empty [data]: [d0] and [d1] are the
    first two bytes of [data], [blob] is [data ++ key]. *)
Definition reference_token (d0 d1 : byte) (blob : bytes) : bytes :=
  let seed := Z.shiftl (ord (hd x00 blob)) 7 in
  let x := fold_left (mix (len blob)) blob seed in
  let combined :=
    Z.lor (Z.lor (Z.shiftl (Z.land x 0xffffffff) 16) (Z.shiftl (ord d0) 48))
          (Z.shiftl (ord d1) 56) in
  skipn 2 (le_bytes 8 combined).

Definition sign_reference (data key : bytes) : option bytes :=
  match data with
  | d0 :: d1 :: _ => Some (reference_token d0 d1 (data ++ key))
  | _ => None
  end.

End Sign.

(* ================================================================== *)
(** ** Module constants *)

(** [struct.pack('<BB...', v0, v1, ...)] on values that fit a byte. *)
Definition struct_pack_B (vs : list Z) : bytes := map chr vs.

Definition SWITCHMATE_SERVICE : string := "abd0f555eb40e7b2ac49ddeb83d32ba2".
Definition NOTIFY_VALUE : bytes := struct_pack_B [0x01; 0x00].

Definition AUTH_NOTIFY_HANDLE : Z := 0x0017.
Definition AUTH_HANDLE : Z := 0x0016.
Definition AUTH_INIT_VALUE : bytes :=
  struct_pack_B [0x00; 0x00; 0x00; 0x00; 0x01; 0x00].

Definition BATTERY_HANDLE : Z := 0x0010.
Definition CLOCK_HANDLE : Z := 0x001f.
Definition ORIENTATION_HANDLE : Z := 0x002e.
Definition STATE_HANDLE : Z := 0x002b.
Definition STATE_NOTIFY_HANDLE : Z := 0x002c.
Definition TOGGLE_STATE_HANDLE : Z := 0x0030.
Definition TOGGLE_RESET_HANDLE : Z := 0x0029.
Definition TIMER1_STATE_HANDLE : Z := 0x0021.
Definition TIMER2_STATE_HANDLE : Z := 0x0023.
Definition MOTION_TIMER_STATE_HANDLE : Z := 0x0032.

(** Local constants of [ScanDelegate.handleDiscovery] and of [scan]. *)
Definition AD_TYPE_UUID : Z := 0x07.
Definition AD_TYPE_SERVICE_DATA : Z := 0x16.
Definition SERVICES_AD_TYPE : Z := 7.

(* ================================================================== *)
(** ** Effects: a trace of events and the way a piece of code ends *)

Inductive event :=
| Stdout (text : string)          (* text written to standard output *)
| Flush                           (* sys.stdout.flush() *)
| Connect (addr : string)         (* Peripheral(addr, ADDR_TYPE_RANDOM) *)
| SetDelegate                     (* device.setDelegate(notifications) *)
| WriteCharacteristic (handle : Z) (val : bytes) (withResponse : bool)
| Disconnect.                     (* device.disconnect() *)

Inductive ending (A : Type) :=
| Returns (a : A)                 (* control reaches the end of the code *)
| Exits (code : Z)                (* sys.exit(code) *)
| Raises (e : exn).               (* an exception nobody catches *)
Arguments Returns {A} a.
Arguments Exits {A} code.
Arguments Raises {A} e.

Definition prog (A : Type) : Type := (list event * ending A)%type.

Definition trace {A} (p : prog A) : list event := fst p.
Definition outcome {A} (p : prog A) : ending A := snd p.

Definition ret {A} (a : A) : prog A := ([], Returns a).

Definition bind {A B} (p : prog A) (k : A -> prog B) : prog B :=
  match p with
  | (t, Returns a) => let (t', e) := k a in ((t ++ t')%list, e)
  | (t, Exits c) => (t, Exits c)
  | (t, Raises e) => (t, Raises e)
  end.

Declare Scope prog_scope.
Delimit Scope prog_scope with prog.
Notation "x <- p ;; k" := (bind p (fun x => k))
  (at level 61, p at next level, right associativity) : prog_scope.
Notation "p ;; k" := (bind p (fun _ => k))
  (at level 61, right associativity) : prog_scope.

Definition emit (e : event) : prog unit := ([e], Returns tt).

Definition sys_exit {A} (code : Z) : prog A := ([], Exits code).

(** A fallible pure computation inside effectful code. *)
Definition lift {A} (r : result A) : prog A :=
  match r with
  | Ok a => ret a
  | Raise e => ([], Raises e)
  end.

Definition newline : string := String (ascii_of_nat 10) EmptyString.

(** [print(s)] and [print(s, end='')]. *)
Definition print (s : string) : prog unit := emit (Stdout (s ++ newline)%string).
Definition print_end_empty (s : string) : prog unit := emit (Stdout s).

(* ================================================================== *)
(** ** [binascii.hexlify] and [str.upper] *)

Definition hex_digit (n : Z) : ascii :=
  nth (Z.to_nat n) (list_ascii_of_string "0123456789abcdef") "0"%char.

Fixpoint hexlify (data : bytes) : string :=
  match data with
  | [] => EmptyString
  | b :: rest =>
      String (hex_digit (ord b / 16)) (String (hex_digit (ord b mod 16)) (hexlify rest))
  end.

Definition upper_char (c : ascii) : ascii :=
  let n := nat_of_ascii c in
  if (97 <=? n)%nat && (n <=? 122)%nat then ascii_of_nat (n - 32) else c.

Fixpoint upper (s : string) : string :=
  match s with
  | EmptyString => EmptyString
  | String c rest => String (upper_char c) (upper rest)
  end.

(* ================================================================== *)
(** ** Notification dispatcher ([NotificationDelegate.handleNotification]) *)

Local Open Scope prog_scope.

Definition handleNotification (handle : Z) (data : bytes) : prog unit :=
  print "" ;;
  succeeded <-
    (if handle =? AUTH_HANDLE then
       print ("Auth key is " ++ upper (hexlify (skipn 3 data)))%string ;;
       ret true
     else
       last <- lift (index_last data) ;;
       if ord last =? 0 then
         print "Switched!" ;;
         ret true
       else
         print "Switching failed!" ;;
         ret false) ;;
  emit Disconnect ;;
  sys_exit (if succeeded : bool then 0 else 1).

(** The outcomes of the specification's data model, and what a trace
    reports: each outcome is announced by its line on standard output. *)
Inductive OperationOutcome :=
| AuthKeyCaptured (key : bytes)
| SwitchSucceeded
| SwitchFailed
| Timeout.

Inductive reports (t : list event) : OperationOutcome -> Prop :=
| reports_auth key :
    In (Stdout ("Auth key is " ++ upper (hexlify key) ++ newline)%string) t ->
    reports t (AuthKeyCaptured key)
| reports_switched :
    In (Stdout ("Switched!" ++ newline)%string) t ->
    reports t SwitchSucceeded
| reports_failed :
    In (Stdout ("Switching failed!" ++ newline)%string) t ->
    reports t SwitchFailed.

(** The process exit status that stands for an outcome. *)
Definition exit_status (o : OperationOutcome) : Z :=
  match o with
  | SwitchFailed => 1
  | _ => 0
  end.

(* ================================================================== *)
(** ** Discovery ([scan]) *)

(** A [ScanEntry] object of the BLE library: its address and the fields of
    its advertisement as [getScanData()] lists them, each a triple
    [(adtype, description, value text)]. *)
Record ScanEntry := {
  addr : string;
  getScanData : list (Z * string * string)
}.

(** Python compares [ScanEntry] objects by identity, so a device is the
    reference to its object and the objects live in a store. *)
Definition ref := nat.

(** [dev in switchmates]. *)
Definition mem (dev : ref) (switchmates : list ref) : bool :=
  existsb (Nat.eqb dev) switchmates.

Section Scan.

Variable store : ref -> ScanEntry.

(** The inner loop [for (adtype, desc, value) in dev.getScanData()]. *)
Fixpoint scan_fields (dev : ref) (fields : list (Z * string * string))
    (switchmates : list ref) : list ref :=
  match fields with
  | [] => switchmates
  | (adtype, desc, value) :: rest =>
      let is_switchmate :=
        (adtype =? SERVICES_AD_TYPE) && (value =? SWITCHMATE_SERVICE)%string in
      if is_switchmate && negb (mem dev switchmates) then
        scan_fields dev rest (switchmates ++ [dev])
      else
        scan_fields dev rest switchmates
  end.

(** The outer loop [for dev in devices]. *)
Fixpoint scan_devices (devices : list ref) (switchmates : list ref) : list ref :=
  match devices with
  | [] => switchmates
  | dev :: rest =>
      scan_devices rest (scan_fields dev (getScanData (store dev)) switchmates)
  end.

(** The list [switchmates] that [scan] builds from the [devices] the
    scanner returned. *)
Definition scan_switchmates (devices : list ref) : list ref :=
  scan_devices devices [].

Fixpoint print_addrs (switchmates : list ref) : prog unit :=
  match switchmates with
  | [] => ret tt
  | switchmate :: rest => print (addr (store switchmate)) ;; print_addrs rest
  end.

(** [scan()]; [devices] is what [scanner.scan(10.0)] returned. *)
Definition scan (devices : list ref) : prog unit :=
  print "Scanning..." ;;
  emit Flush ;;
  let switchmates := scan_switchmates devices in
  if negb (len switchmates =? 0) then
    print "Found Switchmates:" ;;
    print_addrs switchmates
  else
    print "No Switchmate devices found".

(** The lines [scan] prints for the list it built. *)
Definition scan_report (switchmates : list ref) : list event :=
  match switchmates with
  | [] => [Stdout ("No Switchmate devices found" ++ newline)%string]
  | _ :: _ =>
      Stdout ("Found Switchmates:" ++ newline)%string
      :: map (fun dev => Stdout (addr (store dev) ++ newline)%string) switchmates
  end.

(** Some field of the list is a services field (AD type 7) whose value
    text is the Switchmate service UUID. *)
Definition matching (fields : list (Z * string * string)) : Prop :=
  exists desc, In (SERVICES_AD_TYPE, desc, SWITCHMATE_SERVICE) fields.

(** The advertisement of [dev] has a field of type [adtype] whose value
    text is the Switchmate service UUID. *)
Definition advertises (adtype : Z) (dev : ref) : Prop :=
  exists desc, In (adtype, desc, SWITCHMATE_SERVICE) (getScanData (store dev)).

End Scan.

(* ================================================================== *)
(** ** Device protocol driver (the [__main__] block from [Peripheral(...)] on) *)

(** The entries of docopt's dictionary that the device branch reads. *)
Record Arguments := {
  arg_mac_address : string;   (* arguments['<mac_address>'] *)
  arg_switch : bool;          (* arguments['switch'] *)
  arg_on : bool               (* arguments['on'] *)
}.

(** What one call [device.waitForNotifications(1.0)] meets: the slice runs
    out, or the BLE stack delivers a notification. *)
Inductive slice :=
| NoNotification
| Notification (handle : Z) (data : bytes).

(** [device.waitForNotifications(1.0)]: a delivered notification runs the
    delegate's [handleNotification] inside the call. *)
Definition waitForNotifications (s : slice) : prog bool :=
  match s with
  | NoNotification => ret false
  | Notification handle data => handleNotification handle data ;; ret true
  end.

(** The loop has used up every slice it was given and is still iterating. *)
Inductive looping := StillWaiting.

(** [while True: device.waitForNotifications(1.0); print('.', end='');
    sys.stdout.flush()], run against the slices the environment supplies. *)
Fixpoint wait_loop (slices : list slice) : prog looping :=
  match slices with
  | [] => ret StillWaiting
  | s :: rest =>
      waitForNotifications s ;;
      print_end_empty "." ;;
      emit Flush ;;
      wait_loop rest
  end.

(** The writes of the two branches of [if arguments['switch']]. *)
Definition arm (arguments : Arguments) : prog unit :=
  if arg_switch arguments then
    emit (WriteCharacteristic STATE_NOTIFY_HANDLE NOTIFY_VALUE true) ;;
    let val := if arg_on arguments then [x01] else [x00] in
    emit (WriteCharacteristic TOGGLE_STATE_HANDLE val false)
  else
    emit (WriteCharacteristic AUTH_NOTIFY_HANDLE NOTIFY_VALUE true) ;;
    emit (WriteCharacteristic AUTH_HANDLE AUTH_INIT_VALUE true) ;;
    print "Press button on Switchmate to get auth key".

(** Lines 175 to 197 of [switchmate.py]: reached when neither [scan] nor
    [status] was asked for. *)
Definition main_device (arguments : Arguments) (slices : list slice)
    : prog looping :=
  emit (Connect (arg_mac_address arguments)) ;;
  emit SetDelegate ;;
  arm arguments ;;
  print_end_empty "Waiting for response" ;;
  wait_loop slices.

(** The writes of a trace, in order. *)
Fixpoint writes (t : list event) : list (Z * bytes) :=
  match t with
  | [] => []
  | WriteCharacteristic handle val _ :: rest => (handle, val) :: writes rest
  | _ :: rest => writes rest
  end.

(** The handle whose notifications the operation in flight waits for: the
    characteristic whose notify descriptor [arm] writes. *)
Definition armed_handle (arguments : Arguments) : Z :=
  if arg_switch arguments then STATE_HANDLE else AUTH_HANDLE.

Local Close Scope prog_scope.

(* ================================================================== *)
(** ** Vocabulary of the statements *)

(** The output of [n] idle iterations of the wait loop. *)
Fixpoint dots (n : nat) : list event :=
  match n with
  | O => []
  | S n' => Stdout "." :: Flush :: dots n'
  end.

(** What [main_device] does before it enters the wait loop. *)
Definition preamble (arguments : Arguments) : list event :=
  ([Connect (arg_mac_address arguments); SetDelegate]
   ++ trace (arm arguments) ++ [Stdout "Waiting for response"])%list.

Definition idle (slices : list slice) : Prop :=
  Forall (fun s => s = NoNotification) slices.

(** A notification is ignored when the operation in flight is still
    waiting after it: no exit, no exception. *)
Definition ignores (arguments : Arguments) (handle : Z) (data : bytes) : Prop :=
  outcome (main_device arguments [Notification handle data])
  = Returns StillWaiting.

(** Sample inputs. *)
Definition auth_arguments : Arguments :=
  {| arg_mac_address := "c1:59:2c:a0:5d:15"; arg_switch := false; arg_on := false |}.

Definition switch_on_arguments : Arguments :=
  {| arg_mac_address := "c1:59:2c:a0:5d:15"; arg_switch := true; arg_on := true |}.

Definition switch_off_arguments : Arguments :=
  {| arg_mac_address := "c1:59:2c:a0:5d:15"; arg_switch := true; arg_on := false |}.

(** A store of three scanned devices: [0] lists the Switchmate UUID among
    its complete 128-bit services, [1] carries the UUID text in a
    service-data field only, [2] lists another service. *)
Definition sample_store (dev : ref) : ScanEntry :=
  match dev with
  | O =>
      {| addr := "c1:59:2c:a0:5d:15";
         getScanData := [(0x01, "Flags", "06");
                         (0x07, "Complete 128b Services", SWITCHMATE_SERVICE)]%string |}
  | S O =>
      {| addr := "d2:6a:3d:b1:6e:26";
         getScanData := [(0x16, "16b Service Data", SWITCHMATE_SERVICE)]%string |}
  | _ =>
      {| addr := "e3:7b:4e:c2:7f:37";
         getScanData := [(0x07, "Complete 128b Services",
                          "23d1bcea5f782315deef121223150000")]%string |}
  end.

(* ================================================================== *)
(** ** Status ([ScanDelegate], [status]) *)

(** [dev.getValueText(sdid)]: the value text of the field of type [sdid],
    [None] when the advertisement has no such field. *)
Fixpoint getValueText (fields : list (Z * string * string)) (sdid : Z)
    : option string :=
  match fields with
  | [] => None
  | (adtype, _, value) :: rest =>
      if adtype =? sdid then Some value else getValueText rest sdid
  end.

(** A [Characteristic] object, and what a connected [Peripheral] offers to
    [handleDiscovery]: the value read at [STATE_HANDLE] and the list of its
    characteristics.  Reads leave no event in the trace. *)
Record Characteristic := {
  getHandle : Z;
  propertiesToString : string
}.

Record PeripheralData := {
  readState : bytes;                          (* readCharacteristic(STATE_HANDLE) *)
  getCharacteristics : list Characteristic
}.

(** [dev.getValueText(AD_TYPE_UUID) == SWITCHMATE_SERVICE]. *)
Definition is_switchmate_entry (dev : ScanEntry) : bool :=
  match getValueText (getScanData dev) AD_TYPE_UUID with
  | Some value => (value =? SWITCHMATE_SERVICE)%string
  | None => false
  end.

(** [self.mac_address != None and self.mac_address != dev.addr]. *)
Definition other_address (mac_address : option string) (dev : ScanEntry) : bool :=
  match mac_address with
  | Some m => negb (m =? addr dev)%string
  | None => false
  end.

(** The event of [print(s)]. *)
Definition line (s : string) : event := Stdout (s ++ newline)%string.

Section Status.

(** The peripheral behind an address, and Python's [str] on a list of scan
    data and [hex] on a handle, which the code only prints. *)
Variable peripheral : string -> PeripheralData.
Variable str_scanData : list (Z * string * string) -> string.
Variable hex : Z -> string.

Local Open Scope prog_scope.

(** [for character in characteristics: print(...)]. *)
Fixpoint print_characteristics (characteristics : list Characteristic)
    : prog unit :=
  match characteristics with
  | [] => ret tt
  | character :: rest =>
      print ("   " ++ hex (getHandle character) ++ ": "
             ++ propertiesToString character)%string ;;
      print_characteristics rest
  end.

(** [ScanDelegate.handleDiscovery(self, dev, isNewDev, isNewData)]: the
    delegate's [mac_address] and its list [seen] are passed in, the new
    [seen] is returned; the two flags, which the code does not read, are
    left out. *)
Definition handleDiscovery (mac_address : option string) (seen : list string)
    (dev : ScanEntry) : prog (list string) :=
  if other_address mac_address dev then ret seen
  else if existsb (String.eqb (addr dev)) seen then ret seen
  else
    let seen := (seen ++ [addr dev])%list in
    if is_switchmate_entry dev then
      emit (Connect (addr dev)) ;;
      let device := peripheral (addr dev) in
      let data := readState device in
      print (addr dev ++ " " ++ hexlify data)%string ;;
      let scanData := getScanData dev in
      print ("Scan data: " ++ str_scanData scanData)%string ;;
      let characteristics := getCharacteristics device in
      print "Characteristics: " ;;
      print_characteristics characteristics ;;
      match mac_address with Some _ => sys_exit 0 | None => ret tt end ;;
      ret seen
    else ret seen.

(** [scanner.process(20)]: the delegate is called once per advertisement
    received, in order. *)
Fixpoint process (mac_address : option string) (discoveries : list ScanEntry)
    (seen : list string) : prog (list string) :=
  match discoveries with
  | [] => ret seen
  | dev :: rest =>
      seen <- handleDiscovery mac_address seen dev ;;
      process mac_address rest seen
  end.

(** [status(mac_address)]; [ScanDelegate.__init__] sets [seen] to []. *)
Definition status (mac_address : option string) (discoveries : list ScanEntry)
    : prog unit :=
  print "Looking for switchmate status..." ;;
  emit Flush ;;
  process mac_address discoveries [] ;;
  ret tt.

Local Close Scope prog_scope.

(** What [handleDiscovery] does for a Switchmate it examines, up to the
    test of [self.mac_address]. *)
Definition device_report (dev : ScanEntry) : list event :=
  Connect (addr dev)
  :: line (addr dev ++ " " ++ hexlify (readState (peripheral (addr dev))))
  :: line ("Scan data: " ++ str_scanData (getScanData dev))
  :: line "Characteristics: "
  :: map (fun character =>
            line ("   " ++ hex (getHandle character) ++ ": "
                  ++ propertiesToString character))
         (getCharacteristics (peripheral (addr dev))).

End Status.

(** The first line of [status]. *)
Definition status_header : list event :=
  [Stdout ("Looking for switchmate status..." ++ newline)%string; Flush].

(** The addresses a trace connects to, in order. *)
Fixpoint connects (t : list event) : list string :=
  match t with
  | [] => []
  | Connect a :: rest => a :: connects rest
  | _ :: rest => connects rest
  end.

(** A field that makes [is_switchmate] true in [scan]. *)
Definition switchmate_field (field : Z * string * string) : bool :=
  let '(adtype, _, value) := field in
  (adtype =? SERVICES_AD_TYPE) && (value =? SWITCHMATE_SERVICE)%string.

(** Events that neither write to the peripheral nor drop the connection. *)
Definition passive (e : event) : Prop :=
  match e with
  | Stdout _ | Flush | Connect _ => True
  | _ => False
  end.


(** A sample peripheral, and stand-ins for [str] and [hex]. *)
Definition sample_peripheral (a : string) : PeripheralData :=
  {| readState := [x01];
     getCharacteristics :=
       [{| getHandle := STATE_HANDLE; propertiesToString := "READ NOTIFY " |};
        {| getHandle := TOGGLE_STATE_HANDLE; propertiesToString := "READ WRITE " |}] |}.

Definition sample_str (scanData : list (Z * string * string)) : string :=
  "[...]".

Definition sample_hex (handle : Z) : string :=
  if handle =? STATE_HANDLE then "0x2b" else "0x30".

(* ================================================================== *)
(** * Properties *)

(** ** Bytes and bit arithmetic *)

Lemma ord_range (c : byte) : 0 <= ord c < 256.
Proof.
  unfold ord. pose proof (Byte.to_N_bounded c). lia.
Qed.

Lemma chr_ord (c : byte) : chr (ord c) = c.
Proof.
  unfold chr, ord. rewrite N2Z.id, Byte.of_to_N. reflexivity.
Qed.

Lemma ord_chr (z : Z) : 0 <= z < 256 -> ord (chr z) = z.
Proof.
  intros Hz. unfold chr, ord.
  destruct (Byte.of_N (Z.to_N z)) as [b|] eqn:E.
  - apply Byte.to_of_N in E. rewrite E. lia.
  - apply Byte.of_N_None_iff in E. lia.
Qed.

Lemma chr_inj (y z : Z) : 0 <= y < 256 -> 0 <= z < 256 -> chr y = chr z -> y = z.
Proof.
  intros Hy Hz E. rewrite <- (ord_chr y Hy), <- (ord_chr z Hz), E. reflexivity.
Qed.

(** A value below [2^n] and a value shifted past bit [n] share no bit, so
    their bitwise OR is their sum. *)
Lemma lor_shiftl_add (a b n : Z) :
  0 <= n -> 0 <= a < 2 ^ n -> Z.lor a (Z.shiftl b n) = a + b * 2 ^ n.
Proof.
  intros Hn Ha.
  assert (Hland : Z.land a (Z.shiftl b n) = 0).
  { apply Z.bits_inj'. intros i Hi.
    rewrite Z.land_spec, Z.bits_0.
    destruct (Z.lt_ge_cases i n) as [Hlt|Hge].
    - rewrite (Z.shiftl_spec_low b n i Hlt). apply andb_false_r.
    - rewrite <- (Z.mod_small a (2 ^ n)) by lia.
      rewrite Z.mod_pow2_bits_high by lia. reflexivity. }
  rewrite <- (Z.lxor_lor _ _ Hland), <- (Z.add_nocarry_lxor _ _ Hland).
  rewrite Z.shiftl_mul_pow2 by lia. reflexivity.
Qed.

Lemma land_mask32_range (x : Z) : 0 <= Z.land x 0xffffffff < 2 ^ 32.
Proof.
  change 0xffffffff with (Z.ones 32).
  rewrite Z.land_ones by lia. apply Z.mod_pos_bound. lia.
Qed.

(** ** The signing engine *)

Module SignFacts.
Import Sign.

Lemma c_mul_wrap64 (a x : Z) : c_mul a x = wrap64 (x * a).
Proof.
  unfold c_mul, c_int64_value, wrap64.
  change 0xffffffffffffffff with (Z.ones 64).
  rewrite Z.land_ones by lia.
  rewrite (Z.mul_comm a x).
  set (p := x * a).
  pose proof (Z.mod_pos_bound p (2 ^ 64) ltac:(lia)) as Hm.
  pose proof (Z.div_mod p (2 ^ 64) ltac:(lia)) as Hd.
  destruct (Z.ltb_spec (p mod 2 ^ 64) (2 ^ 63)) as [Hlt|Hge].
  - rewrite <- (Z.mod_unique (p + 2 ^ 63) (2 ^ 64) (p / 2 ^ 64) (p mod 2 ^ 64 + 2 ^ 63));
      lia.
  - rewrite <- (Z.mod_unique (p + 2 ^ 63) (2 ^ 64) (p / 2 ^ 64 + 1) (p mod 2 ^ 64 - 2 ^ 63));
      lia.
Qed.

Lemma sign_loop_fold (n : Z) (cs : bytes) (x : Z) :
  sign_loop n cs x = fold_left (mix n) cs x.
Proof.
  revert x. induction cs as [|c cs IH]; intros x; simpl.
  - reflexivity.
  - rewrite IH. unfold mix. rewrite c_mul_wrap64. reflexivity.
Qed.

(** The byte at position [i] of the little-endian packing. *)
Lemma byte_at (v i : Z) :
  0 <= i -> Z.land (Z.shiftr v (8 * i)) 0xff = (v / 2 ^ (8 * i)) mod 256.
Proof.
  intros Hi. change 0xff with (Z.ones 8).
  rewrite Z.land_ones by lia. rewrite Z.shiftr_div_pow2 by lia. reflexivity.
Qed.

Lemma struct_pack_Q_le_bytes (v : Z) :
  0 <= v < 2 ^ 64 -> struct_pack_Q v = Ok (le_bytes 8 v).
Proof.
  intros Hv. unfold struct_pack_Q.
  destruct (Z.leb_spec 0 v); [|lia].
  destruct (Z.ltb_spec v (2 ^ 64)); [|lia].
  simpl andb. cbv iota. f_equal.
  cbn [map le_bytes].
  rewrite !byte_at by lia.
  rewrite !Z.div_div by lia.
  cbn [Z.mul Pos.mul Z.pow Z.pow_pos Pos.iter].
  rewrite Z.div_1_r. reflexivity.
Qed.

(** The value handed to [struct.pack] is the sum of its three fields. *)
Lemma combined_fields (x : Z) (d0 d1 : byte) :
  Z.lor (Z.lor (Z.shiftl (Z.land x 0xffffffff) 16) (Z.shiftl (ord d0) 48))
        (Z.shiftl (ord d1) 56) = fields x d0 d1.
Proof.
  pose proof (land_mask32_range x) as Hh.
  pose proof (ord_range d0) as H0. pose proof (ord_range d1) as H1.
  unfold fields.
  rewrite (Z.shiftl_mul_pow2 (Z.land x 0xffffffff) 16) by lia.
  rewrite (lor_shiftl_add _ (ord d0) 48) by lia.
  rewrite (lor_shiftl_add _ (ord d1) 56) by lia.
  reflexivity.
Qed.

Lemma fields_range (x : Z) (d0 d1 : byte) : 0 <= fields x d0 d1 < 2 ^ 64.
Proof.
  pose proof (land_mask32_range x) as Hh.
  pose proof (ord_range d0) as H0. pose proof (ord_range d1) as H1.
  unfold fields. lia.
Qed.

(** [sign_combined] and [sign] on a [data] of at least two bytes. *)
Lemma sign_combined_eq (d0 d1 : byte) (rest key : bytes) :
  sign_combined (d0 :: d1 :: rest) key =
  Ok (fields (hash_of ((d0 :: d1 :: rest) ++ key)) d0 d1).
Proof.
  unfold sign_combined, hash_of. cbv zeta.
  cbn [app index nth_error rbind hd].
  rewrite combined_fields. reflexivity.
Qed.

Lemma sign_eq (d0 d1 : byte) (rest key : bytes) :
  sign (d0 :: d1 :: rest) key =
  Ok (skipn 2 (le_bytes 8 (fields (hash_of ((d0 :: d1 :: rest) ++ key)) d0 d1))).
Proof.
  unfold sign. rewrite sign_combined_eq. cbn [rbind].
  rewrite struct_pack_Q_le_bytes by apply fields_range.
  reflexivity.
Qed.

Lemma two_bytes (data : bytes) :
  2 <= len data -> exists d0 d1 rest, data = d0 :: d1 :: rest.
Proof.
  unfold len. destruct data as [|d0 [|d1 rest]]; simpl; try lia.
  intros _. exists d0, d1, rest. reflexivity.
Qed.

Lemma sign_short (data key : bytes) :
  len data < 2 -> sign data key = Raise IndexError.
Proof.
  unfold len. destruct data as [|d0 [|d1 rest]]; simpl; try lia; intros _.
  - unfold sign, sign_combined. simpl.
    destruct key; reflexivity.
  - reflexivity.
Qed.

End SignFacts.

Module SignLayout.
Import Sign SignFacts.

Lemma le_bytes_length (k : nat) (v : Z) : List.length (le_bytes k v) = k.
Proof.
  revert v. induction k as [|k IH]; intros v; simpl; [reflexivity|].
  rewrite IH. reflexivity.
Qed.

Lemma le_bytes_shifted (k : nat) (w : Z) :
  le_bytes (S k) (256 * w) = x00 :: le_bytes k w.
Proof.
  cbn [le_bytes].
  rewrite Z.mul_comm, Z.mod_mul, Z.div_mul by lia. reflexivity.
Qed.

Lemma le_bytes_low (k : nat) (b : byte) (w : Z) :
  le_bytes (S k) (ord b + 256 * w) = b :: le_bytes k w.
Proof.
  pose proof (ord_range b) as Hb.
  cbn [le_bytes].
  rewrite <- (Z.mod_unique (ord b + 256 * w) 256 w (ord b)) by lia.
  rewrite <- (Z.div_unique (ord b + 256 * w) 256 w (ord b)) by lia.
  rewrite chr_ord. reflexivity.
Qed.

Lemma le_bytes_app (j k : nat) (v : Z) :
  le_bytes (j + k) v = (le_bytes j v ++ le_bytes k (v / 256 ^ Z.of_nat j))%list.
Proof.
  revert v. induction j as [|j IH]; intros v.
  - simpl. rewrite Z.div_1_r. reflexivity.
  - cbn [Nat.add le_bytes app]. rewrite IH. do 2 f_equal.
    rewrite Z.div_div by lia. f_equal.
    rewrite Nat2Z.inj_succ, Z.pow_succ_r by lia. reflexivity.
Qed.

(** The [k] low bytes do not see what lies above bit [8 * k]. *)
Lemma le_bytes_high (k : nat) (h w : Z) :
  le_bytes k (h + 256 ^ Z.of_nat k * w) = le_bytes k h.
Proof.
  revert h w. induction k as [|k IH]; intros h w; [reflexivity|].
  cbn [le_bytes].
  rewrite Nat2Z.inj_succ, Z.pow_succ_r by lia.
  replace (h + 256 * 256 ^ Z.of_nat k * w)
    with (h + (256 ^ Z.of_nat k * w) * 256) by lia.
  rewrite Z.mod_add, Z.div_add by lia.
  rewrite IH. reflexivity.
Qed.

(** The packed form of the combined value: two zero bytes, the four bytes
    of the masked hash, then the two data bytes. *)
Lemma le_bytes_fields (x : Z) (d0 d1 : byte) :
  le_bytes 8 (fields x d0 d1) =
  (x00 :: x00 :: le_bytes 4 (Z.land x 0xffffffff) ++ [d0; d1])%list.
Proof.
  pose proof (land_mask32_range x) as Hh.
  pose proof (ord_range d0) as H0. pose proof (ord_range d1) as H1.
  set (h := Z.land x 0xffffffff) in *.
  set (top := ord d0 + 256 * (ord d1 + 256 * 0)).
  replace (fields x d0 d1) with (256 * (256 * (h + 2 ^ 32 * top)))
    by (unfold fields, top; fold h; lia).
  rewrite !le_bytes_shifted. do 2 f_equal.
  change 6%nat with (4 + 2)%nat. rewrite le_bytes_app.
  change (256 ^ Z.of_nat 4) with (2 ^ 32).
  rewrite <- (Z.div_unique (h + 2 ^ 32 * top) (2 ^ 32) top h) by lia.
  change (2 ^ 32) with (256 ^ Z.of_nat 4). rewrite le_bytes_high.
  unfold top. rewrite !le_bytes_low. reflexivity.
Qed.

Lemma fields_low16 (x : Z) (d0 d1 : byte) : Z.land (fields x d0 d1) 0xffff = 0.
Proof.
  change 0xffff with (Z.ones 16). rewrite Z.land_ones by lia.
  symmetry.
  apply (Z.mod_unique _ _
           (Z.land x 0xffffffff + ord d0 * 2 ^ 32 + ord d1 * 2 ^ 40)); [lia|].
  unfold fields. lia.
Qed.

End SignLayout.

(** C1. For every [data] of at least two bytes and every [key],
    [sign(data, key)] returns the token of the reference algorithm: seed
    [blob[0] << 7], one step [wrap64(x * 1000003) XOR c XOR length(blob)]
    per byte of [blob = data ++ key] from index 0 on, then
    [(x & 0xffffffff) << 16] with [data[0] << 48] and [data[1] << 56] ORed
    in, packed little-endian into 8 bytes, the first 2 dropped. *)
Theorem sign_refines_reference (data key : bytes) :
  2 <= len data ->
  exists token,
    Sign.sign_reference data key = Some token /\ Sign.sign data key = Ok token.
Proof.
  intros Hlen. destruct (SignFacts.two_bytes data Hlen) as (d0 & d1 & rest & ->).
  eexists. split; [reflexivity|].
  rewrite SignFacts.sign_eq. unfold Sign.reference_token. cbv zeta.
  rewrite SignFacts.combined_fields.
  unfold Sign.hash_of. rewrite SignFacts.sign_loop_fold. reflexivity.
Qed.

Lemma sign_refines_reference_witness :
  2 <= len [x01; x01] /\
  exists token,
    Sign.sign_reference [x01; x01] [x12; x34; x56; x78] = Some token /\
    Sign.sign [x01; x01] [x12; x34; x56; x78] = Ok token.
Proof.
  split; [vm_compute; discriminate|].
  apply (sign_refines_reference [x01; x01] [x12; x34; x56; x78]).
  vm_compute; discriminate.
Defined.

(** C5. [sign(data, key)] returns exactly 6 bytes when [data] has at least
    two bytes; with fewer than two bytes it returns no token: it raises
    [IndexError]. *)
Theorem sign_returns_six_bytes (data key : bytes) :
  (2 <= len data ->
   exists token, Sign.sign data key = Ok token /\ len token = 6) /\
  (len data < 2 -> Sign.sign data key = Raise IndexError).
Proof.
  split.
  - intros Hlen. destruct (SignFacts.two_bytes data Hlen) as (d0 & d1 & rest & ->).
    eexists. split; [apply SignFacts.sign_eq|].
    rewrite SignLayout.le_bytes_fields. unfold len. cbn [skipn].
    rewrite length_app, SignLayout.le_bytes_length. reflexivity.
  - apply SignFacts.sign_short.
Qed.

Lemma sign_returns_six_bytes_witness :
  (exists token, Sign.sign [xff; xfe] [x0a] = Ok token /\ len token = 6) /\
  Sign.sign [xff] [x0a; x0b] = Raise IndexError.
Proof.
  split.
  - apply (proj1 (sign_returns_six_bytes [xff; xfe] [x0a])).
    vm_compute; discriminate.
  - apply (proj2 (sign_returns_six_bytes [xff] [x0a; x0b])).
    vm_compute; reflexivity.
Defined.

(** C10. For [data] of at least two bytes, the value packed in [sign] has
    its low 16 bits zero, so the two bytes dropped from the packed output
    are [00 00], and the last two bytes of the 6-byte token are [data[0]]
    and [data[1]]. *)
Theorem sign_token_layout (data key : bytes) :
  2 <= len data ->
  exists v token,
    Sign.sign_combined data key = Ok v /\
    Z.land v 0xffff = 0 /\
    Sign.struct_pack_Q v = Ok (x00 :: x00 :: token) /\
    Sign.sign data key = Ok token /\
    len token = 6 /\
    nth_error token 4 = nth_error data 0 /\
    nth_error token 5 = nth_error data 1.
Proof.
  intros Hlen. destruct (SignFacts.two_bytes data Hlen) as (d0 & d1 & rest & ->).
  set (x := Sign.hash_of ((d0 :: d1 :: rest) ++ key)).
  exists (Sign.fields x d0 d1),
         (Sign.le_bytes 4 (Z.land x 0xffffffff) ++ [d0; d1])%list.
  split; [apply SignFacts.sign_combined_eq|].
  split; [apply SignLayout.fields_low16|].
  split.
  { rewrite SignFacts.struct_pack_Q_le_bytes by apply SignFacts.fields_range.
    rewrite SignLayout.le_bytes_fields. reflexivity. }
  split.
  { rewrite SignFacts.sign_eq. fold x.
    rewrite SignLayout.le_bytes_fields. reflexivity. }
  split.
  { unfold len. rewrite length_app, SignLayout.le_bytes_length. reflexivity. }
  split; reflexivity.
Qed.

Lemma sign_token_layout_witness :
  exists v token,
    Sign.sign_combined [xa5; x5a; x01] [x12; x34] = Ok v /\
    Z.land v 0xffff = 0 /\
    Sign.struct_pack_Q v = Ok (x00 :: x00 :: token) /\
    Sign.sign [xa5; x5a; x01] [x12; x34] = Ok token /\
    len token = 6 /\
    nth_error token 4 = nth_error [xa5; x5a; x01] 0 /\
    nth_error token 5 = nth_error [xa5; x5a; x01] 1.
Proof.
  apply (sign_token_layout [xa5; x5a; x01] [x12; x34]).
  vm_compute; discriminate.
Defined.

(* ================================================================== *)
(** ** The notification dispatcher *)

Lemma index_last_app (data : bytes) (c : byte) :
  index_last (data ++ [c]) = Ok c.
Proof.
  unfold index_last. rewrite rev_app_distr. reflexivity.
Qed.

Lemma index_last_nonempty (data : bytes) :
  data <> [] -> exists c, index_last data = Ok c.
Proof.
  intros Hne. destruct (exists_last Hne) as (front & c & ->).
  exists c. apply index_last_app.
Qed.

Lemma handleNotification_auth (data : bytes) :
  handleNotification AUTH_HANDLE data =
  ([Stdout newline;
    Stdout ("Auth key is " ++ upper (hexlify (skipn 3 data)) ++ newline)%string;
    Disconnect], Exits 0).
Proof. reflexivity. Qed.

Lemma handleNotification_switch (handle : Z) (data : bytes) (c : byte) :
  handle <> AUTH_HANDLE -> index_last data = Ok c ->
  handleNotification handle data =
  if ord c =? 0 then
    ([Stdout newline; Stdout ("Switched!" ++ newline)%string; Disconnect], Exits 0)
  else
    ([Stdout newline; Stdout ("Switching failed!" ++ newline)%string; Disconnect],
     Exits 1).
Proof.
  intros Hh Hc. unfold handleNotification.
  apply Z.eqb_neq in Hh. rewrite Hh, Hc.
  cbn [lift ret bind print emit app].
  destruct (ord c =? 0); reflexivity.
Qed.

Lemma handleNotification_empty (handle : Z) :
  handle <> AUTH_HANDLE ->
  handleNotification handle [] = ([Stdout newline], Raises IndexError).
Proof.
  intros Hh. unfold handleNotification.
  apply Z.eqb_neq in Hh. rewrite Hh. reflexivity.
Qed.

(** The handler never hands control back to the wait loop. *)
Lemma handleNotification_stops (handle : Z) (data : bytes) :
  (exists code, outcome (handleNotification handle data) = Exits code /\
                (code = 0 \/ code = 1)) \/
  (outcome (handleNotification handle data) = Raises IndexError /\
   handle <> AUTH_HANDLE /\ data = []).
Proof.
  destruct (Z.eq_dec handle AUTH_HANDLE) as [->|Hh].
  - left. exists 0. rewrite handleNotification_auth. auto.
  - destruct data as [|d data].
    + right. rewrite (handleNotification_empty _ Hh). auto.
    + left. destruct (index_last_nonempty (d :: data)) as [c Hc]; [discriminate|].
      rewrite (handleNotification_switch _ _ _ Hh Hc).
      destruct (ord c =? 0); [exists 0 | exists 1]; auto.
Qed.

(** *** The printed key determines the key *)

Lemma hex_digit_upper_inj_nat (j k : nat) :
  (j < 16)%nat -> (k < 16)%nat ->
  upper_char (hex_digit (Z.of_nat j)) = upper_char (hex_digit (Z.of_nat k)) ->
  j = k.
Proof.
  intros Hj Hk E.
  do 16 (destruct j as [|j];
         [do 16 (destruct k as [|k];
                 [first [reflexivity | vm_compute in E; discriminate E]|]);
          exfalso; lia|]).
  exfalso; lia.
Qed.

Lemma hex_digit_upper_inj (m n : Z) :
  0 <= m < 16 -> 0 <= n < 16 ->
  upper_char (hex_digit m) = upper_char (hex_digit n) -> m = n.
Proof.
  intros Hm Hn E.
  rewrite <- (Z2Nat.id m), <- (Z2Nat.id n) in E |- * by lia.
  f_equal. apply hex_digit_upper_inj_nat; [lia|lia|exact E].
Qed.

Lemma hexlify_upper_inj (key key' : bytes) :
  (upper (hexlify key) ++ newline)%string = (upper (hexlify key') ++ newline)%string ->
  key = key'.
Proof.
  revert key'. induction key as [|b key IH]; intros [|b' key'] E.
  - reflexivity.
  - cbn in E. discriminate E.
  - cbn in E. discriminate E.
  - cbn [hexlify upper String.append] in E.
    injection E as Ehi Elo Erest.
    pose proof (ord_range b) as Hb. pose proof (ord_range b') as Hb'.
    apply hex_digit_upper_inj in Ehi;
      [|split; [apply Z.div_pos|apply Z.div_lt_upper_bound]; lia ..].
    apply hex_digit_upper_inj in Elo; [|apply Z.mod_pos_bound; lia ..].
    f_equal; [|apply IH; exact Erest].
    rewrite <- (chr_ord b), <- (chr_ord b'). f_equal.
    rewrite (Z.div_mod (ord b) 16), (Z.div_mod (ord b') 16) by lia.
    rewrite Ehi, Elo. reflexivity.
Qed.

(** What the three possible traces of the handler report. *)
Lemma reports_auth_trace (key : bytes) (o : OperationOutcome) :
  reports [Stdout newline;
           Stdout ("Auth key is " ++ upper (hexlify key) ++ newline)%string;
           Disconnect] o
  <-> o = AuthKeyCaptured key.
Proof.
  split.
  - intros H. inversion H as [key' Hin|Hin|Hin]; subst;
      cbn in Hin; destruct Hin as [E|[E|[E|[]]]]; try discriminate E.
    injection E as E. apply hexlify_upper_inj in E. subst. reflexivity.
  - intros ->. constructor. right. left. reflexivity.
Qed.

Lemma reports_switched_trace (o : OperationOutcome) :
  reports [Stdout newline; Stdout ("Switched!" ++ newline)%string; Disconnect] o
  <-> o = SwitchSucceeded.
Proof.
  split.
  - intros H. inversion H as [key' Hin|Hin|Hin]; subst;
      cbn in Hin; destruct Hin as [E|[E|[E|[]]]]; try discriminate E.
    reflexivity.
  - intros ->. constructor. right. left. reflexivity.
Qed.

Lemma reports_failed_trace (o : OperationOutcome) :
  reports [Stdout newline; Stdout ("Switching failed!" ++ newline)%string; Disconnect] o
  <-> o = SwitchFailed.
Proof.
  split.
  - intros H. inversion H as [key' Hin|Hin|Hin]; subst;
      cbn in Hin; destruct Hin as [E|[E|[E|[]]]]; try discriminate E.
    reflexivity.
  - intros ->. constructor. right. left. reflexivity.
Qed.

Lemma reports_empty_trace (o : OperationOutcome) : ~ reports [Stdout newline] o.
Proof.
  intros H. inversion H as [key' Hin|Hin|Hin]; subst;
    cbn in Hin; destruct Hin as [E|[]]; discriminate E.
Qed.

(* ================================================================== *)
(** ** The wait loop and the driver *)

Lemma dots_app (m n : nat) : dots (m + n) = (dots m ++ dots n)%list.
Proof.
  induction m as [|m IH]; simpl; [reflexivity|]. rewrite IH. reflexivity.
Qed.

Lemma idle_cons (s : slice) (slices : list slice) :
  idle (s :: slices) <-> s = NoNotification /\ idle slices.
Proof.
  unfold idle. split.
  - intros H. inversion H; subst. auto.
  - intros [-> H]. constructor; [reflexivity|exact H].
Qed.

(** A slice without notification costs one dot. *)
Lemma wait_loop_idle_step (slices : list slice) :
  wait_loop (NoNotification :: slices) =
  ((dots 1 ++ trace (wait_loop slices))%list, outcome (wait_loop slices)).
Proof.
  cbn [wait_loop waitForNotifications]. unfold bind, ret, print_end_empty, emit.
  cbn [app]. destruct (wait_loop slices) as [t [l|c|e]]; reflexivity.
Qed.

(** A delivered notification ends the loop the way the handler ends. *)
Lemma wait_loop_notified (handle : Z) (data : bytes) (slices : list slice) :
  trace (wait_loop (Notification handle data :: slices))
  = trace (handleNotification handle data) /\
  match outcome (handleNotification handle data) with
  | Returns _ => False
  | Exits code =>
      outcome (wait_loop (Notification handle data :: slices)) = Exits code
  | Raises e =>
      outcome (wait_loop (Notification handle data :: slices)) = Raises e
  end.
Proof.
  cbn [wait_loop waitForNotifications].
  destruct (handleNotification_stops handle data) as [(code & H & _)|(H & _)];
    destruct (handleNotification handle data) as [t o]; cbn [outcome snd] in H;
    subst o; split; reflexivity.
Qed.

Lemma wait_loop_idle (slices : list slice) :
  idle slices ->
  wait_loop slices = (dots (List.length slices), Returns StillWaiting).
Proof.
  induction slices as [|s slices IH]; intros Hidle; [reflexivity|].
  apply idle_cons in Hidle. destruct Hidle as [-> Hidle].
  rewrite wait_loop_idle_step, (IH Hidle). reflexivity.
Qed.

Lemma wait_loop_first (before after : list slice) (handle : Z) (data : bytes) :
  idle before ->
  trace (wait_loop (before ++ Notification handle data :: after))
  = (dots (List.length before) ++ trace (handleNotification handle data))%list /\
  outcome (wait_loop (before ++ Notification handle data :: after))
  = outcome (wait_loop [Notification handle data]).
Proof.
  induction before as [|s before IH]; intros Hidle.
  - cbn [app List.length dots].
    pose proof (wait_loop_notified handle data after) as [Ht Ho].
    pose proof (wait_loop_notified handle data []) as [_ Ho'].
    split; [exact Ht|].
    destruct (outcome (handleNotification handle data)); [contradiction|congruence ..].
  - apply idle_cons in Hidle. destruct Hidle as [-> Hidle].
    destruct (IH Hidle) as [Ht Ho].
    cbn [app]. rewrite wait_loop_idle_step. cbn [trace outcome fst snd].
    split; [|exact Ho].
    fold (trace (wait_loop (before ++ Notification handle data :: after))).
    rewrite Ht. reflexivity.
Qed.

(** Every list of slices is idle or has a first notification. *)
Lemma first_notification (slices : list slice) :
  idle slices \/
  exists before handle data after,
    slices = (before ++ Notification handle data :: after)%list /\ idle before.
Proof.
  induction slices as [|s slices IH].
  - left. constructor.
  - destruct s as [|handle data].
    + destruct IH as [Hidle|(before & handle & data & after & -> & Hidle)].
      * left. apply idle_cons. auto.
      * right. exists (NoNotification :: before), handle, data, after.
        split; [reflexivity|]. apply idle_cons. auto.
    + right. exists [], handle, data, slices. split; [reflexivity|constructor].
Qed.

Lemma arm_returns (arguments : Arguments) : outcome (arm arguments) = Returns tt.
Proof. unfold arm. destruct (arg_switch arguments); reflexivity. Qed.

Lemma main_device_eq (arguments : Arguments) (slices : list slice) :
  main_device arguments slices =
  ((preamble arguments ++ trace (wait_loop slices))%list,
   outcome (wait_loop slices)).
Proof.
  unfold main_device, preamble.
  pose proof (arm_returns arguments) as Harm.
  destruct (arm arguments) as [t o]. cbn [outcome snd] in Harm. subst o.
  unfold bind, emit, print_end_empty. cbn [trace fst app].
  destruct (wait_loop slices) as [t' o']. cbn [trace outcome fst snd].
  rewrite <- !app_assoc. reflexivity.
Qed.

(** *** Writes *)

Lemma writes_app (t t' : list event) :
  writes (t ++ t') = (writes t ++ writes t')%list.
Proof.
  induction t as [|e t IH]; [reflexivity|].
  destruct e; cbn [app writes]; rewrite IH; reflexivity.
Qed.

Lemma writes_dots (n : nat) : writes (dots n) = [].
Proof. induction n as [|n IH]; [reflexivity|exact IH]. Qed.

Lemma writes_handleNotification (handle : Z) (data : bytes) :
  writes (trace (handleNotification handle data)) = [].
Proof.
  destruct (Z.eq_dec handle AUTH_HANDLE) as [->|Hh].
  - reflexivity.
  - destruct data as [|d data].
    + rewrite (handleNotification_empty _ Hh). reflexivity.
    + destruct (index_last_nonempty (d :: data)) as [c Hc]; [discriminate|].
      rewrite (handleNotification_switch _ _ _ Hh Hc).
      destruct (ord c =? 0); reflexivity.
Qed.

Lemma writes_wait_loop (slices : list slice) :
  writes (trace (wait_loop slices)) = [].
Proof.
  destruct (first_notification slices)
    as [Hidle|(before & handle & data & after & -> & Hidle)].
  - rewrite (wait_loop_idle _ Hidle). apply writes_dots.
  - destruct (wait_loop_first before after handle data Hidle) as [-> _].
    rewrite writes_app, writes_dots, writes_handleNotification. reflexivity.
Qed.

(** *** What a run reports *)

Lemma reports_app (t t' : list event) (o : OperationOutcome) :
  reports (t ++ t') o <-> reports t o \/ reports t' o.
Proof.
  split.
  - intros H. inversion H as [key Hin|Hin|Hin]; subst;
      apply in_app_or in Hin; destruct Hin as [Hin|Hin];
      solve [left; constructor; exact Hin | right; constructor; exact Hin].
  - intros [H|H]; inversion H as [key Hin|Hin|Hin]; subst; constructor;
      apply in_or_app; auto.
Qed.

Lemma reports_dots (n : nat) (o : OperationOutcome) : ~ reports (dots n) o.
Proof.
  assert (Hin : forall s, In (Stdout s) (dots n) -> s = "."%string).
  { induction n as [|n IH]; intros s Hs; cbn in Hs; [contradiction|].
    destruct Hs as [E|[E|Hs]]; [|discriminate E|auto].
    injection E as <-. reflexivity. }
  intros H. inversion H as [key Hs|Hs|Hs]; subst; apply Hin in Hs; discriminate Hs.
Qed.

Lemma reports_preamble (arguments : Arguments) (o : OperationOutcome) :
  ~ reports (preamble arguments) o.
Proof.
  unfold preamble, arm.
  intros H. destruct (arg_switch arguments);
    inversion H as [key Hs|Hs|Hs]; subst; cbn in Hs;
    repeat (destruct Hs as [Hs|Hs]; [discriminate Hs|]); exact Hs.
Qed.

Lemma handler_exit_status (handle : Z) (data : bytes) (o : OperationOutcome) :
  reports (trace (handleNotification handle data)) o ->
  outcome (handleNotification handle data) = Exits (exit_status o).
Proof.
  destruct (Z.eq_dec handle AUTH_HANDLE) as [->|Hh].
  - rewrite handleNotification_auth. cbn [trace outcome fst snd].
    intros H. apply reports_auth_trace in H. subst o. reflexivity.
  - destruct data as [|d data].
    + rewrite (handleNotification_empty _ Hh). cbn [trace fst].
      intros H. apply reports_empty_trace in H. contradiction.
    + destruct (index_last_nonempty (d :: data)) as [c Hc]; [discriminate|].
      rewrite (handleNotification_switch _ _ _ Hh Hc).
      destruct (ord c =? 0); cbn [trace outcome fst snd]; intros H.
      * apply reports_switched_trace in H. subst o. reflexivity.
      * apply reports_failed_trace in H. subst o. reflexivity.
Qed.

(** What a run reports is what the handler of its first notification
    reports. *)
Lemma reports_run (arguments : Arguments) (slices : list slice)
    (o : OperationOutcome) :
  reports (trace (main_device arguments slices)) o ->
  exists before handle data after,
    slices = (before ++ Notification handle data :: after)%list /\
    idle before /\
    reports (trace (handleNotification handle data)) o.
Proof.
  rewrite main_device_eq. cbn [trace fst]. intros H.
  apply reports_app in H. destruct H as [H|H].
  { apply reports_preamble in H. contradiction. }
  destruct (first_notification slices)
    as [Hidle|(before & handle & data & after & -> & Hidle)].
  - rewrite (wait_loop_idle _ Hidle) in H. cbn [trace fst] in H.
    apply reports_dots in H. contradiction.
  - exists before, handle, data, after. split; [reflexivity|]. split; [exact Hidle|].
    destruct (wait_loop_first before after handle data Hidle) as [Ht _].
    rewrite Ht in H. apply reports_app in H. destruct H as [H|H]; [|exact H].
    apply reports_dots in H. contradiction.
Qed.

Lemma outcome_run_notified (arguments : Arguments) (before after : list slice)
    (handle : Z) (data : bytes) (code : Z) :
  idle before ->
  outcome (handleNotification handle data) = Exits code ->
  outcome (main_device arguments (before ++ Notification handle data :: after))
  = Exits code.
Proof.
  intros Hidle Hexit. rewrite main_device_eq. cbn [outcome snd].
  destruct (wait_loop_first before after handle data Hidle) as [_ Ho].
  fold (outcome (wait_loop (before ++ Notification handle data :: after))).
  rewrite Ho.
  pose proof (wait_loop_notified handle data []) as [_ Hn].
  rewrite Hexit in Hn. exact Hn.
Qed.

(** C2. A notification on the auth handle yields [AuthKeyCaptured] with the
    payload from offset 3 on as the key; on any other handle a payload
    whose last byte is 0 yields [SwitchSucceeded] and one whose last byte
    is not 0 yields [SwitchFailed]. *)
Theorem handleNotification_outcome (handle : Z) (data : bytes) :
  (handle = AUTH_HANDLE ->
   forall o, reports (trace (handleNotification handle data)) o
             <-> o = AuthKeyCaptured (skipn 3 data)) /\
  (handle <> AUTH_HANDLE ->
   forall last, index_last data = Ok last ->
     (ord last = 0 ->
      forall o, reports (trace (handleNotification handle data)) o
                <-> o = SwitchSucceeded) /\
     (ord last <> 0 ->
      forall o, reports (trace (handleNotification handle data)) o
                <-> o = SwitchFailed)).
Proof.
  split.
  - intros -> o. rewrite handleNotification_auth. apply reports_auth_trace.
  - intros Hh last Hlast.
    rewrite (handleNotification_switch _ _ _ Hh Hlast).
    split; intros Hord o.
    + apply Z.eqb_eq in Hord. rewrite Hord. apply reports_switched_trace.
    + apply Z.eqb_neq in Hord. rewrite Hord. apply reports_failed_trace.
Qed.

Lemma handleNotification_outcome_witness :
  (forall o, reports (trace (handleNotification AUTH_HANDLE
                               [x01; x02; x03; xde; xad; xbe; xef])) o
             <-> o = AuthKeyCaptured [xde; xad; xbe; xef]) /\
  (forall o, reports (trace (handleNotification STATE_HANDLE [x00])) o
             <-> o = SwitchSucceeded) /\
  (forall o, reports (trace (handleNotification STATE_HANDLE [x00; x01])) o
             <-> o = SwitchFailed).
Proof.
  split; [|split].
  - apply (proj1 (handleNotification_outcome AUTH_HANDLE
                    [x01; x02; x03; xde; xad; xbe; xef])).
    reflexivity.
  - refine (proj1 (proj2 (handleNotification_outcome STATE_HANDLE [x00]) _ x00 _) _).
    + vm_compute; discriminate.
    + reflexivity.
    + reflexivity.
  - refine (proj2 (proj2 (handleNotification_outcome STATE_HANDLE [x00; x01]) _ x01 _) _).
    + vm_compute; discriminate.
    + reflexivity.
    + vm_compute; discriminate.
Defined.

(** C4. Whenever a run reports a terminal outcome, the process exits with
    status 0 for [SwitchSucceeded] and [AuthKeyCaptured] and with status 1
    for [SwitchFailed]; the status is 1 exactly for a failed switch. *)
Theorem exit_status_tells_outcome (arguments : Arguments)
    (slices : list slice) (o : OperationOutcome) :
  reports (trace (main_device arguments slices)) o ->
  outcome (main_device arguments slices) = Exits (exit_status o) /\
  (exit_status o = 1 <-> o = SwitchFailed) /\
  (exit_status o = 0 <->
   o = SwitchSucceeded \/ exists key, o = AuthKeyCaptured key).
Proof.
  intros H. split.
  - destruct (reports_run _ _ _ H)
      as (before & handle & data & after & -> & Hidle & Hrep).
    apply outcome_run_notified; [exact Hidle|].
    apply handler_exit_status. exact Hrep.
  - inversion H as [key _|_|_]; subst; cbn [exit_status]; split; split;
      try discriminate; try reflexivity; intros E;
      try (destruct E as [E|[key' E]]; discriminate E);
      try (right; exists key; reflexivity); try (left; reflexivity).
Qed.

Lemma exit_status_tells_outcome_witness :
  outcome (main_device switch_on_arguments
             [NoNotification; Notification STATE_HANDLE [x01]])
  = Exits 1 /\
  outcome (main_device switch_on_arguments
             [NoNotification; Notification STATE_HANDLE [x00]])
  = Exits 0.
Proof.
  split.
  - refine (proj1 (exit_status_tells_outcome switch_on_arguments
                     [NoNotification; Notification STATE_HANDLE [x01]]
                     SwitchFailed _)).
    constructor. vm_compute. tauto.
  - refine (proj1 (exit_status_tells_outcome switch_on_arguments
                     [NoNotification; Notification STATE_HANDLE [x00]]
                     SwitchSucceeded _)).
    constructor. vm_compute. tauto.
Defined.

(** C3, as the specification states it, fails: while the authenticate
    operation is armed (it waits on the auth handle), a notification on
    the state handle is not ignored.  With payload [01] the handler prints
    the switch failure, disconnects and ends the process with status 1;
    with an empty payload it raises [IndexError]. *)
Lemma unarmed_notification_not_ignored :
  STATE_HANDLE <> armed_handle auth_arguments /\
  ~ ignores auth_arguments STATE_HANDLE [x01] /\
  main_device auth_arguments [Notification STATE_HANDLE [x01]] =
    ((preamble auth_arguments ++
      [Stdout newline; Stdout ("Switching failed!" ++ newline)%string; Disconnect])%list,
     Exits 1) /\
  ~ ignores auth_arguments STATE_HANDLE [] /\
  outcome (main_device auth_arguments [Notification STATE_HANDLE []])
  = Raises IndexError.
Proof.
  split; [vm_compute; discriminate|].
  split; [unfold ignores; vm_compute; discriminate|].
  split; [reflexivity|].
  split; [unfold ignores; vm_compute; discriminate|].
  reflexivity.
Qed.

(** C3, amended.  No notification is ignored, whichever operation is armed:
    after the first notification delivered the run is never still waiting,
    and the notification is dispatched on its handle alone.  On the auth
    handle the handler prints the payload from offset 3 on as the auth key,
    disconnects and ends the process with status 0; on any other handle,
    with a payload that has a last byte, it prints the switch result read
    from that byte, disconnects and ends the process with status 0 when the
    byte is 0 and with status 1 otherwise. *)
Theorem notification_always_dispatched (arguments : Arguments)
    (before after : list slice) (handle : Z) (data : bytes) :
  idle before ->
  outcome (main_device arguments (before ++ Notification handle data :: after))
  <> Returns StillWaiting /\
  (handle = AUTH_HANDLE ->
   main_device arguments (before ++ Notification handle data :: after) =
   ((preamble arguments ++ dots (List.length before) ++
     [Stdout newline;
      Stdout ("Auth key is " ++ upper (hexlify (skipn 3 data)) ++ newline)%string;
      Disconnect])%list,
    Exits 0)) /\
  (handle <> AUTH_HANDLE ->
   forall last, index_last data = Ok last ->
   main_device arguments (before ++ Notification handle data :: after) =
   if ord last =? 0 then
     ((preamble arguments ++ dots (List.length before) ++
       [Stdout newline; Stdout ("Switched!" ++ newline)%string; Disconnect])%list,
      Exits 0)
   else
     ((preamble arguments ++ dots (List.length before) ++
       [Stdout newline; Stdout ("Switching failed!" ++ newline)%string;
        Disconnect])%list,
      Exits 1)).
Proof.
  intros Hidle.
  destruct (wait_loop_first before after handle data Hidle) as [Ht Ho].
  pose proof (wait_loop_notified handle data []) as [_ Hn].
  rewrite main_device_eq. cbn [outcome snd].
  fold (outcome (wait_loop (before ++ Notification handle data :: after))).
  rewrite Ht, Ho.
  split; [|split].
  - destruct (outcome (handleNotification handle data)) as [u|code|e];
      [contradiction|rewrite Hn; discriminate ..].
  - intros ->. rewrite handleNotification_auth in Hn |- *.
    cbn [trace outcome fst snd] in Hn |- *. rewrite Hn. reflexivity.
  - intros Hh last Hlast.
    rewrite (handleNotification_switch _ _ _ Hh Hlast) in Hn |- *.
    destruct (ord last =? 0); cbn [trace outcome fst snd] in Hn |- *;
      rewrite Hn; reflexivity.
Qed.

Lemma notification_always_dispatched_witness :
  outcome (main_device switch_off_arguments
             ([NoNotification; NoNotification]
              ++ Notification AUTH_HANDLE [x00; x00; x00; x5a] :: [NoNotification]))
  <> Returns StillWaiting /\
  main_device switch_off_arguments
    ([NoNotification; NoNotification]
     ++ Notification AUTH_HANDLE [x00; x00; x00; x5a] :: [NoNotification]) =
  ((preamble switch_off_arguments ++ dots 2 ++
    [Stdout newline; Stdout ("Auth key is 5A" ++ newline)%string; Disconnect])%list,
   Exits 0) /\
  main_device auth_arguments
    ([NoNotification] ++ Notification STATE_HANDLE [x00; x01] :: []) =
  ((preamble auth_arguments ++ dots 1 ++
    [Stdout newline; Stdout ("Switching failed!" ++ newline)%string;
     Disconnect])%list,
   Exits 1).
Proof.
  assert (Hidle2 : idle [NoNotification; NoNotification]) by repeat constructor.
  assert (Hidle1 : idle [NoNotification]) by repeat constructor.
  split; [|split].
  - exact (proj1 (notification_always_dispatched switch_off_arguments
                    [NoNotification; NoNotification] [NoNotification]
                    AUTH_HANDLE [x00; x00; x00; x5a] Hidle2)).
  - exact (proj1 (proj2 (notification_always_dispatched switch_off_arguments
                           [NoNotification; NoNotification] [NoNotification]
                           AUTH_HANDLE [x00; x00; x00; x5a] Hidle2))
             eq_refl).
  - refine (proj2 (proj2 (notification_always_dispatched auth_arguments
                            [NoNotification] [] STATE_HANDLE [x00; x01] Hidle1))
              _ x01 eq_refl).
    vm_compute. discriminate.
Defined.

(** C7. The switch operation writes exactly twice: first the notify-enable
    value [01 00] to the state-notify handle, then one byte to the
    toggle-state handle, [01] for on and [00] for off. *)
Theorem switch_writes (arguments : Arguments) (slices : list slice) :
  arg_switch arguments = true ->
  writes (trace (main_device arguments slices)) =
  [(STATE_NOTIFY_HANDLE, [x01; x00]);
   (TOGGLE_STATE_HANDLE, [if arg_on arguments then x01 else x00])].
Proof.
  intros Hswitch. rewrite main_device_eq. cbn [trace fst].
  rewrite writes_app, writes_wait_loop, app_nil_r.
  unfold preamble, arm. rewrite Hswitch.
  destruct (arg_on arguments); reflexivity.
Qed.

Lemma switch_writes_witness :
  writes (trace (main_device switch_on_arguments
                   [NoNotification; Notification STATE_HANDLE [x00]])) =
  [(STATE_NOTIFY_HANDLE, [x01; x00]); (TOGGLE_STATE_HANDLE, [x01])] /\
  writes (trace (main_device switch_off_arguments [NoNotification])) =
  [(STATE_NOTIFY_HANDLE, [x01; x00]); (TOGGLE_STATE_HANDLE, [x00])].
Proof.
  split.
  - apply (switch_writes switch_on_arguments
             [NoNotification; Notification STATE_HANDLE [x00]]).
    reflexivity.
  - apply (switch_writes switch_off_arguments [NoNotification]).
    reflexivity.
Defined.

(** C8. The authenticate operation writes exactly twice: first the
    notify-enable value [01 00] to the auth-notify handle, then the
    initialization value [00 00 00 00 01 00] to the auth handle. *)
Theorem auth_writes (arguments : Arguments) (slices : list slice) :
  arg_switch arguments = false ->
  writes (trace (main_device arguments slices)) =
  [(AUTH_NOTIFY_HANDLE, [x01; x00]);
   (AUTH_HANDLE, [x00; x00; x00; x00; x01; x00])].
Proof.
  intros Hswitch. rewrite main_device_eq. cbn [trace fst].
  rewrite writes_app, writes_wait_loop, app_nil_r.
  unfold preamble, arm. rewrite Hswitch. reflexivity.
Qed.

Lemma auth_writes_witness :
  writes (trace (main_device auth_arguments
                   [NoNotification; Notification AUTH_HANDLE [x00; x01; x02; x03]])) =
  [(AUTH_NOTIFY_HANDLE, [x01; x00]);
   (AUTH_HANDLE, [x00; x00; x00; x00; x01; x00])].
Proof.
  apply (auth_writes auth_arguments
           [NoNotification; Notification AUTH_HANDLE [x00; x01; x02; x03]]).
  reflexivity.
Defined.

(** C9. As long as no notification is delivered the wait loop goes on: after
    any number of empty slices the run is still waiting, has printed one dot
    per slice and reports no outcome, [Timeout] included.  A run that has
    ended has ended in the handler of a delivered notification. *)
Theorem wait_loop_never_times_out (arguments : Arguments) (slices : list slice) :
  (idle slices ->
   main_device arguments slices =
     ((preamble arguments ++ dots (List.length slices))%list, Returns StillWaiting) /\
   forall o, ~ reports (trace (main_device arguments slices)) o) /\
  (outcome (main_device arguments slices) <> Returns StillWaiting ->
   exists before handle data after,
     slices = (before ++ Notification handle data :: after)%list /\
     idle before /\
     trace (main_device arguments slices) =
       (preamble arguments ++ dots (List.length before)
        ++ trace (handleNotification handle data))%list) /\
  ~ reports (trace (main_device arguments slices)) Timeout.
Proof.
  split; [|split].
  - intros Hidle. split.
    + rewrite main_device_eq, (wait_loop_idle _ Hidle). reflexivity.
    + intros o H. apply reports_run in H.
      destruct H as (before & handle & data & after & -> & _ & _).
      unfold idle in Hidle. rewrite Forall_forall in Hidle.
      specialize (Hidle (Notification handle data)).
      discriminate Hidle. apply in_or_app. right. left. reflexivity.
  - intros Hended.
    destruct (first_notification slices)
      as [Hidle|(before & handle & data & after & -> & Hidle)].
    + exfalso. apply Hended.
      rewrite main_device_eq, (wait_loop_idle _ Hidle). reflexivity.
    + exists before, handle, data, after.
      split; [reflexivity|]. split; [exact Hidle|].
      rewrite main_device_eq. cbn [trace fst].
      destruct (wait_loop_first before after handle data Hidle) as [-> _].
      reflexivity.
  - intros H. inversion H.
Qed.

Lemma wait_loop_never_times_out_witness :
  main_device auth_arguments [NoNotification; NoNotification; NoNotification] =
    ((preamble auth_arguments ++ dots 3)%list, Returns StillWaiting) /\
  exists before handle data after,
    [NoNotification; Notification AUTH_HANDLE [x00; x00; x00; x07]] =
      (before ++ Notification handle data :: after)%list /\
    idle before /\
    trace (main_device auth_arguments
             [NoNotification; Notification AUTH_HANDLE [x00; x00; x00; x07]]) =
      (preamble auth_arguments ++ dots (List.length before)
       ++ trace (handleNotification handle data))%list.
Proof.
  split.
  - apply (proj1 (wait_loop_never_times_out auth_arguments
                    [NoNotification; NoNotification; NoNotification])).
    repeat constructor.
  - apply (proj1 (proj2 (wait_loop_never_times_out auth_arguments
                    [NoNotification; Notification AUTH_HANDLE [x00; x00; x00; x07]]))).
    vm_compute. discriminate.
Defined.

(* ================================================================== *)
(** ** Discovery *)

Section ScanFacts.

Variable store : ref -> ScanEntry.

Lemma mem_In (dev : ref) (switchmates : list ref) :
  mem dev switchmates = true <-> In dev switchmates.
Proof.
  unfold mem. rewrite existsb_exists. split.
  - intros (d & Hin & E). apply Nat.eqb_eq in E. subst. exact Hin.
  - intros Hin. exists dev. split; [exact Hin|apply Nat.eqb_refl].
Qed.

(** A field makes [is_switchmate] true exactly when it is a services field
    (AD type 7) whose value is the Switchmate UUID. *)
Lemma is_switchmate_spec (adtype : Z) (value : string) :
  (adtype =? SERVICES_AD_TYPE) && (value =? SWITCHMATE_SERVICE)%string = true
  <-> adtype = SERVICES_AD_TYPE /\ value = SWITCHMATE_SERVICE.
Proof.
  rewrite andb_true_iff, Z.eqb_eq, String.eqb_eq. reflexivity.
Qed.

Lemma scan_fields_In (dev : ref) (fields : list (Z * string * string))
    (switchmates : list ref) (d : ref) :
  In d (scan_fields dev fields switchmates)
  <-> In d switchmates \/ (d = dev /\ matching fields).
Proof.
  revert switchmates.
  induction fields as [|[[adtype desc] value] fields IH]; intros switchmates.
  - cbn [scan_fields]. split; [auto|].
    intros [H|[_ [desc []]]]. exact H.
  - cbn [scan_fields].
    destruct ((adtype =? SERVICES_AD_TYPE) && (value =? SWITCHMATE_SERVICE)%string)
      eqn:Hmatch.
    + apply is_switchmate_spec in Hmatch. destruct Hmatch as [-> ->].
      destruct (mem dev switchmates) eqn:Hmem; cbn [andb negb]; rewrite IH.
      * apply mem_In in Hmem. split.
        -- intros [H|[-> [desc' H]]]; [auto|].
           right. split; [reflexivity|]. exists desc'. right. exact H.
        -- intros [H|[-> _]]; auto.
      * rewrite in_app_iff. split.
        -- intros [[H|[<-|[]]]|[-> [desc' H]]]; auto.
           ++ right. split; [reflexivity|]. exists desc. left. reflexivity.
           ++ right. split; [reflexivity|]. exists desc'. right. exact H.
        -- intros [H|[-> _]]; [auto|]. left. right. left. reflexivity.
    + cbn [andb]. rewrite IH. split.
      * intros [H|[-> [desc' H]]]; [auto|].
        right. split; [reflexivity|]. exists desc'. right. exact H.
      * intros [H|[-> [desc' [E|H]]]]; [auto| |].
        -- injection E as -> _ ->.
           assert (Ht : (SERVICES_AD_TYPE =? SERVICES_AD_TYPE)
                        && (SWITCHMATE_SERVICE =? SWITCHMATE_SERVICE)%string = true)
             by (apply is_switchmate_spec; auto).
           rewrite Ht in Hmatch. discriminate Hmatch.
        -- right. split; [reflexivity|]. exists desc'. exact H.
Qed.

Lemma scan_fields_NoDup (dev : ref) (fields : list (Z * string * string))
    (switchmates : list ref) :
  NoDup switchmates -> NoDup (scan_fields dev fields switchmates).
Proof.
  revert switchmates.
  induction fields as [|[[adtype desc] value] fields IH]; intros switchmates Hnd.
  - exact Hnd.
  - cbn [scan_fields].
    destruct ((adtype =? SERVICES_AD_TYPE) && (value =? SWITCHMATE_SERVICE)%string);
      [|apply IH; exact Hnd].
    destruct (mem dev switchmates) eqn:Hmem; cbn [andb negb]; apply IH;
      [exact Hnd|].
    apply NoDup_app; [exact Hnd|repeat constructor; intros []|].
    intros d Hd [<-|[]].
    apply mem_In in Hd. rewrite Hd in Hmem. discriminate Hmem.
Qed.

Lemma scan_devices_In (devices switchmates : list ref) (d : ref) :
  In d (scan_devices store devices switchmates)
  <-> In d switchmates \/ (In d devices /\ advertises store SERVICES_AD_TYPE d).
Proof.
  revert switchmates. induction devices as [|dev devices IH]; intros switchmates.
  - cbn [scan_devices]. split; [auto|]. intros [H|[[] _]]. exact H.
  - cbn [scan_devices]. rewrite IH, scan_fields_In.
    unfold advertises, matching. cbn [In]. split.
    + intros [[H|[-> H]]|[H1 H2]]; auto.
    + intros [H|[[<-|H1] H2]]; auto.
Qed.

Lemma scan_devices_NoDup (devices switchmates : list ref) :
  NoDup switchmates -> NoDup (scan_devices store devices switchmates).
Proof.
  revert switchmates. induction devices as [|dev devices IH]; intros switchmates Hnd.
  - exact Hnd.
  - cbn [scan_devices]. apply IH, scan_fields_NoDup, Hnd.
Qed.

Lemma print_addrs_eq (switchmates : list ref) :
  print_addrs store switchmates =
  (map (fun dev => Stdout (addr (store dev) ++ newline)%string) switchmates,
   Returns tt).
Proof.
  induction switchmates as [|dev switchmates IH]; [reflexivity|].
  cbn [print_addrs map]. rewrite IH. reflexivity.
Qed.

Lemma scan_eq (devices : list ref) :
  scan store devices =
  (Stdout ("Scanning..." ++ newline)%string :: Flush
   :: scan_report store (scan_switchmates store devices), Returns tt).
Proof.
  unfold scan. cbv zeta.
  destruct (scan_switchmates store devices) as [|dev switchmates] eqn:E.
  - reflexivity.
  - replace (negb (len (dev :: switchmates) =? 0)) with true.
    + unfold bind at 2. unfold print at 2. unfold emit at 2.
      rewrite print_addrs_eq. reflexivity.
    + symmetry. apply negb_true_iff, Z.eqb_neq. unfold len. cbn [List.length]. lia.
Qed.

End ScanFacts.

(** C6, as the specification states it, fails: device [1] of the sample
    store advertises a service-data field (AD type 0x16) equal to the
    Switchmate UUID and is not returned, and device [0], which is returned,
    has no service-data field at all. *)
Lemma scan_skips_service_data :
  advertises sample_store AD_TYPE_SERVICE_DATA 1%nat /\
  ~ In 1%nat (scan_switchmates sample_store [0; 1; 2]%nat) /\
  scan_switchmates sample_store [0; 1; 2]%nat = [0%nat] /\
  ~ advertises sample_store AD_TYPE_SERVICE_DATA 0%nat.
Proof.
  split; [exists "16b Service Data"%string; left; reflexivity|].
  split; [vm_compute; intros [E|[]]; discriminate E|].
  split; [reflexivity|].
  intros [desc H]. cbn in H.
  destruct H as [E|[E|[]]]; discriminate E.
Qed.

(** C6, amended.  [scan] returns exactly the scanned devices whose
    advertisement has a field of AD type 7 (the complete list of 128-bit
    service UUIDs) whose value is the Switchmate UUID, each device once;
    every other device is left out.  The addresses of these devices are
    what [scan] prints. *)
Theorem scan_returns_switchmates (store : ref -> ScanEntry) (devices : list ref) :
  (forall dev,
     In dev (scan_switchmates store devices)
     <-> In dev devices /\ advertises store SERVICES_AD_TYPE dev) /\
  NoDup (scan_switchmates store devices) /\
  scan store devices =
    (Stdout ("Scanning..." ++ newline)%string :: Flush
     :: scan_report store (scan_switchmates store devices), Returns tt).
Proof.
  split; [|split].
  - intros dev. unfold scan_switchmates. rewrite scan_devices_In. cbn [In]. tauto.
  - apply scan_devices_NoDup. constructor.
  - apply scan_eq.
Qed.

(* ================================================================== *)
(** ** Further properties of the signing engine *)

Module SignMore.
Import Sign.

Lemma wrap64_range (p : Z) : - 2 ^ 63 <= wrap64 p < 2 ^ 63.
Proof.
  unfold wrap64.
  pose proof (Z.mod_pos_bound (p + 2 ^ 63) (2 ^ 64) ltac:(lia)). lia.
Qed.

Lemma wrap64_congr (p : Z) : (wrap64 p - p) mod 2 ^ 64 = 0.
Proof.
  unfold wrap64.
  pose proof (Z.div_mod (p + 2 ^ 63) (2 ^ 64) ltac:(lia)) as Hd.
  replace ((p + 2 ^ 63) mod 2 ^ 64 - 2 ^ 63 - p)
    with (- ((p + 2 ^ 63) / 2 ^ 64) * 2 ^ 64) by lia.
  apply Z.mod_mul. lia.
Qed.

(** The low 32 bits of a value that differs from [p] by a multiple of
    [2^64] are those of [p]. *)
Lemma low32_of_wrap64 (p : Z) :
  Z.land (wrap64 p) 0xffffffff = Z.land p 0xffffffff.
Proof.
  change 0xffffffff with (Z.ones 32). rewrite !Z.land_ones by lia.
  unfold wrap64.
  pose proof (Z.div_mod (p + 2 ^ 63) (2 ^ 64) ltac:(lia)) as Hd.
  replace ((p + 2 ^ 63) mod 2 ^ 64 - 2 ^ 63)
    with (p + (- ((p + 2 ^ 63) / 2 ^ 64) * 2 ^ 32) * 2 ^ 32) by lia.
  apply Z.mod_add. lia.
Qed.

Lemma low32_mul (a x y : Z) :
  Z.land x 0xffffffff = Z.land y 0xffffffff ->
  Z.land (a * x) 0xffffffff = Z.land (a * y) 0xffffffff.
Proof.
  change 0xffffffff with (Z.ones 32). rewrite !Z.land_ones by lia.
  intros E. rewrite <- (Z.mul_mod_idemp_r a x), <- (Z.mul_mod_idemp_r a y) by lia.
  rewrite E. reflexivity.
Qed.

Lemma low32_lxor (a b c d : Z) :
  Z.land a 0xffffffff = Z.land b 0xffffffff ->
  Z.land (Z.lxor (Z.lxor a c) d) 0xffffffff
  = Z.land (Z.lxor (Z.lxor b c) d) 0xffffffff.
Proof.
  intros E. apply Z.bits_inj'. intros i _.
  assert (Ei : Z.testbit (Z.land a 0xffffffff) i = Z.testbit (Z.land b 0xffffffff) i)
    by (rewrite E; reflexivity).
  rewrite !Z.land_spec in Ei. rewrite !Z.land_spec, !Z.lxor_spec.
  destruct (Z.testbit 0xffffffff i).
  - rewrite !andb_true_r in *. rewrite Ei. reflexivity.
  - rewrite !andb_false_r. reflexivity.
Qed.

(** Bitwise XOR keeps a signed [k+1]-bit value in range. *)
Lemma lxor_signed_range (k a b : Z) :
  0 <= k -> - 2 ^ k <= a < 2 ^ k -> 0 <= b < 2 ^ k ->
  - 2 ^ k <= Z.lxor a b < 2 ^ k.
Proof.
  intros Hk Ha Hb.
  assert (Hpos : forall u v, 0 <= u < 2 ^ k -> 0 <= v < 2 ^ k ->
                             0 <= Z.lxor u v < 2 ^ k).
  { intros u v Hu Hv.
    assert (H0 : 0 <= Z.lxor u v) by (apply Z.lxor_nonneg; lia).
    split; [exact H0|].
    destruct (Z.eq_dec (Z.lxor u v) 0) as [E|E];
      [rewrite E; apply Z.pow_pos_nonneg; lia|].
    assert (Hk0 : 0 < k).
    { destruct (Z.eq_dec k 0) as [->|]; [|lia].
      exfalso. apply E. change (2 ^ 0) with 1 in Hu, Hv.
      replace u with 0 by lia. replace v with 0 by lia. reflexivity. }
    apply Z.log2_lt_pow2; [lia|].
    pose proof (Z.log2_lxor u v ltac:(lia) ltac:(lia)) as Hl.
    assert (Hu' : Z.log2 u < k).
    { destruct (Z.eq_dec u 0) as [->|]; [simpl; lia|apply Z.log2_lt_pow2; lia]. }
    assert (Hv' : Z.log2 v < k).
    { destruct (Z.eq_dec v 0) as [->|]; [simpl; lia|apply Z.log2_lt_pow2; lia]. }
    lia. }
  destruct (Z.lt_ge_cases a 0) as [Hneg|Hnn].
  - assert (Hl : Z.lxor a b = Z.lnot (Z.lxor (Z.lnot a) b)).
    { rewrite <- Z.lnot_lxor_l, Z.lnot_involutive. reflexivity. }
    rewrite Hl. unfold Z.lnot in *.
    specialize (Hpos (Z.pred (- a)) b ltac:(lia) Hb). lia.
  - specialize (Hpos a b ltac:(lia) Hb). lia.
Qed.

(** Masking to 32 bits does not change the four low bytes. *)
Lemma low_byte_of_masked (x s : Z) :
  0 <= s <= 24 ->
  Z.land (Z.shiftr (Z.land x 0xffffffff) s) 0xff = Z.land (Z.shiftr x s) 0xff.
Proof.
  intros Hs. apply Z.bits_inj'. intros i Hi.
  rewrite !Z.land_spec, !Z.shiftr_spec by lia. rewrite Z.land_spec.
  change 0xff with (Z.ones 8). change 0xffffffff with (Z.ones 32).
  destruct (Z.lt_ge_cases i 8) as [Hlt|Hge].
  - rewrite (Z.ones_spec_low 32 (i + s)) by lia. rewrite andb_true_r. reflexivity.
  - rewrite (Z.ones_spec_high 8 i) by lia. rewrite !andb_false_r. reflexivity.
Qed.

Lemma le_bytes_4_shifts (v : Z) :
  le_bytes 4 v = map (fun i => chr (Z.land (Z.shiftr v (8 * i)) 0xff)) [0; 1; 2; 3].
Proof.
  cbn [map le_bytes].
  rewrite !SignFacts.byte_at by lia.
  rewrite !Z.div_div by lia.
  cbn [Z.mul Pos.mul Z.pow Z.pow_pos Pos.iter].
  rewrite Z.div_1_r. reflexivity.
Qed.

End SignMore.

(** X1. [c_mul] returns a signed 64-bit value that differs from the exact
    product by a multiple of [2^64]. *)
Theorem c_mul_signed_wraparound (a b : Z) :
  - 2 ^ 63 <= Sign.c_mul a b < 2 ^ 63 /\
  (Sign.c_mul a b - a * b) mod 2 ^ 64 = 0.
Proof.
  rewrite SignFacts.c_mul_wrap64, (Z.mul_comm a b).
  split; [apply SignMore.wrap64_range|apply SignMore.wrap64_congr].
Qed.

(** X2. Whatever the loop of [sign] starts from, its accumulator is a
    signed 64-bit value after every byte, as long as [len(blob)] is below
    [2^63]. *)
Theorem sign_loop_signed_64 (n : Z) (cs : bytes) (x : Z) :
  0 <= n < 2 ^ 63 -> cs <> [] ->
  - 2 ^ 63 <= Sign.sign_loop n cs x < 2 ^ 63.
Proof.
  intros Hn. revert x. induction cs as [|c cs IH]; intros x Hne; [contradiction|].
  cbn [Sign.sign_loop].
  assert (Hstep : - 2 ^ 63 <=
                  Z.lxor (Z.lxor (Sign.c_mul 1000003 x) (ord c)) n < 2 ^ 63).
  { pose proof (ord_range c) as Hc.
    apply SignMore.lxor_signed_range; [lia| |lia].
    apply SignMore.lxor_signed_range; [lia| |lia].
    rewrite SignFacts.c_mul_wrap64. apply SignMore.wrap64_range. }
  destruct cs as [|c' cs'].
  - exact Hstep.
  - apply IH. discriminate.
Qed.

Lemma sign_loop_signed_64_witness :
  - 2 ^ 63 <= Sign.sign_loop 3 [xff; xfe; x0a] (Z.shiftl 255 7) < 2 ^ 63.
Proof.
  apply (sign_loop_signed_64 3 [xff; xfe; x0a] (Z.shiftl 255 7)).
  - lia.
  - discriminate.
Defined.

(** X3. The low 32 bits of the hash do not depend on the 64-bit
    wrap-around: the low 32 bits of [c_mul(a, b)] are those of the exact
    product, and two accumulators with the same low 32 bits end the loop
    with the same low 32 bits. *)
Theorem sign_loop_low32 (n : Z) (cs : bytes) :
  (forall a b, Z.land (Sign.c_mul a b) 0xffffffff = Z.land (a * b) 0xffffffff) /\
  (forall x y,
     Z.land x 0xffffffff = Z.land y 0xffffffff ->
     Z.land (Sign.sign_loop n cs x) 0xffffffff
     = Z.land (Sign.sign_loop n cs y) 0xffffffff).
Proof.
  split.
  - intros a b.
    rewrite SignFacts.c_mul_wrap64, SignMore.low32_of_wrap64, Z.mul_comm.
    reflexivity.
  - induction cs as [|c cs IH]; intros x y E; [exact E|].
    cbn [Sign.sign_loop]. apply IH. apply SignMore.low32_lxor.
    rewrite !SignFacts.c_mul_wrap64, !SignMore.low32_of_wrap64.
    rewrite !(Z.mul_comm _ 1000003). apply SignMore.low32_mul. exact E.
Qed.

Lemma sign_loop_low32_witness :
  Z.land (Sign.sign_loop 2 [x01; x02] 5) 0xffffffff
  = Z.land (Sign.sign_loop 2 [x01; x02] (5 + 2 ^ 32)) 0xffffffff.
Proof.
  apply (proj2 (sign_loop_low32 2 [x01; x02]) 5 (5 + 2 ^ 32)).
  reflexivity.
Defined.

(** X4. The token is the low 32 bits of the hash, least significant byte
    first, followed by the first two bytes of [data]. *)
Theorem sign_token_bytes (d0 d1 : byte) (rest key : bytes) :
  Sign.sign (d0 :: d1 :: rest) key =
  Ok (map (fun i => chr (Z.land (Z.shiftr (Sign.hash_of ((d0 :: d1 :: rest) ++ key))
                                          (8 * i)) 0xff))
          [0; 1; 2; 3] ++ [d0; d1])%list.
Proof.
  rewrite SignFacts.sign_eq, SignLayout.le_bytes_fields. cbn [skipn].
  do 2 f_equal.
  rewrite SignMore.le_bytes_4_shifts. cbn [map].
  rewrite !SignMore.low_byte_of_masked by lia. reflexivity.
Qed.

(* ================================================================== *)
(** ** Further properties of the dispatcher and of the driver *)

(** The two ways the handler can end. *)
Lemma handleNotification_cases (handle : Z) (data : bytes) :
  (exists code t,
     handleNotification handle data = ((t ++ [Disconnect])%list, Exits code)) \/
  handleNotification handle data = ([Stdout newline], Raises IndexError).
Proof.
  destruct (Z.eq_dec handle AUTH_HANDLE) as [->|Hh].
  - left. exists 0. eexists [_; _]. apply handleNotification_auth.
  - destruct data as [|d data].
    + right. apply handleNotification_empty. exact Hh.
    + left. destruct (index_last_nonempty (d :: data)) as [c Hc]; [discriminate|].
      rewrite (handleNotification_switch _ _ _ Hh Hc).
      destruct (ord c =? 0); [exists 0|exists 1]; eexists [_; _]; reflexivity.
Qed.

Lemma no_disconnect_dots (n : nat) : ~ In Disconnect (dots n).
Proof.
  induction n as [|n IH]; [intros []|].
  intros [E|[E|H]]; [discriminate E|discriminate E|exact (IH H)].
Qed.

Lemma no_disconnect_preamble (arguments : Arguments) :
  ~ In Disconnect (preamble arguments).
Proof.
  unfold preamble, arm. destruct (arg_switch arguments); cbn;
    intros H; repeat (destruct H as [H|H]; [discriminate H|]); exact H.
Qed.

Lemma wait_loop_pair (slices : list slice) :
  wait_loop slices = (trace (wait_loop slices), outcome (wait_loop slices)).
Proof. destruct (wait_loop slices); reflexivity. Qed.

(** X5. A run has disconnected from the device exactly when it has left
    the process through [sys.exit]: a run that is still waiting, or that
    stopped on the [IndexError] of an empty payload, has not. *)
Theorem disconnect_iff_exit (arguments : Arguments) (slices : list slice) :
  In Disconnect (trace (main_device arguments slices))
  <-> exists code, outcome (main_device arguments slices) = Exits code.
Proof.
  rewrite main_device_eq. cbn [trace outcome fst snd].
  destruct (first_notification slices)
    as [Hidle|(before & handle & data & after & -> & Hidle)].
  - rewrite (wait_loop_idle _ Hidle). cbn [trace outcome fst snd]. split.
    + intros H. apply in_app_or in H. destruct H as [H|H].
      * apply no_disconnect_preamble in H. contradiction.
      * apply no_disconnect_dots in H. contradiction.
    + intros [code E]. discriminate E.
  - destruct (wait_loop_first before after handle data Hidle) as [Ht Ho].
    pose proof (wait_loop_notified handle data []) as [_ Hn].
    rewrite Ht, Ho.
    destruct (handleNotification_cases handle data) as [(code & t & E)|E];
      rewrite E in Hn |- *; cbn [trace outcome fst snd] in Hn |- *; rewrite Hn.
    + split; [intros _; exists code; reflexivity|intros _].
      apply in_or_app. right. apply in_or_app. right.
      apply in_or_app. right. left. reflexivity.
    + split; [|intros [code E']; discriminate E'].
      intros H. apply in_app_or in H. destruct H as [H|H].
      * apply no_disconnect_preamble in H. contradiction.
      * apply in_app_or in H. destruct H as [H|[H|[]]]; [|discriminate H].
        apply no_disconnect_dots in H. contradiction.
Qed.

(** X6. A notification on the auth handle whose payload has at most three
    bytes is no error: the key captured is empty, the handler disconnects
    and the process exits with status 0. *)
Theorem auth_short_payload (data : bytes) :
  len data <= 3 ->
  handleNotification AUTH_HANDLE data =
  ([Stdout newline; Stdout ("Auth key is " ++ newline)%string; Disconnect], Exits 0).
Proof.
  intros Hlen. rewrite handleNotification_auth.
  rewrite skipn_all2 by (unfold len in Hlen; lia). reflexivity.
Qed.

Lemma auth_short_payload_witness :
  handleNotification AUTH_HANDLE [x01; x02] =
  ([Stdout newline; Stdout ("Auth key is " ++ newline)%string; Disconnect], Exits 0).
Proof.
  apply (auth_short_payload [x01; x02]). vm_compute. discriminate.
Defined.

(** X7. Only the first notification counts: whatever the BLE stack would
    deliver after it is never looked at. *)
Theorem later_slices_unread (arguments : Arguments) (before after : list slice)
    (handle : Z) (data : bytes) :
  idle before ->
  main_device arguments (before ++ Notification handle data :: after)
  = main_device arguments (before ++ [Notification handle data]).
Proof.
  intros Hidle. rewrite !main_device_eq.
  destruct (wait_loop_first before after handle data Hidle) as [Ht Ho].
  destruct (wait_loop_first before [] handle data Hidle) as [Ht' Ho'].
  rewrite Ht, Ho, Ht', Ho'. reflexivity.
Qed.

Lemma later_slices_unread_witness :
  main_device switch_on_arguments
    ([NoNotification] ++ Notification STATE_HANDLE [x00]
       :: [Notification STATE_HANDLE [x01]; NoNotification])
  = main_device switch_on_arguments
      ([NoNotification] ++ [Notification STATE_HANDLE [x00]]).
Proof.
  apply (later_slices_unread switch_on_arguments [NoNotification]
           [Notification STATE_HANDLE [x01]; NoNotification] STATE_HANDLE [x00]).
  repeat constructor.
Defined.




Lemma handler_reports_one (handle : Z) (data : bytes) (o o' : OperationOutcome) :
  reports (trace (handleNotification handle data)) o ->
  reports (trace (handleNotification handle data)) o' ->
  o = o'.
Proof.
  destruct (Z.eq_dec handle AUTH_HANDLE) as [->|Hh].
  - rewrite handleNotification_auth. cbn [trace fst]. intros H H'.
    apply reports_auth_trace in H, H'. congruence.
  - destruct data as [|d data].
    + rewrite (handleNotification_empty _ Hh). cbn [trace fst].
      intros H. apply reports_empty_trace in H. contradiction.
    + destruct (index_last_nonempty (d :: data)) as [c Hc]; [discriminate|].
      rewrite (handleNotification_switch _ _ _ Hh Hc).
      destruct (ord c =? 0); cbn [trace fst]; intros H H'.
      * apply reports_switched_trace in H, H'. congruence.
      * apply reports_failed_trace in H, H'. congruence.
Qed.

(** X9. A run reports at most one outcome: two outcomes read off the
    trace of one run are the same. *)
Theorem run_reports_one_outcome (arguments : Arguments) (slices : list slice)
    (o o' : OperationOutcome) :
  reports (trace (main_device arguments slices)) o ->
  reports (trace (main_device arguments slices)) o' ->
  o = o'.
Proof.
  rewrite main_device_eq. cbn [trace fst].
  destruct (first_notification slices)
    as [Hidle|(before & handle & data & after & -> & Hidle)].
  - rewrite (wait_loop_idle _ Hidle). cbn [trace fst]. intros H _.
    apply reports_app in H. destruct H as [H|H].
    + apply reports_preamble in H. contradiction.
    + apply reports_dots in H. contradiction.
  - destruct (wait_loop_first before after handle data Hidle) as [-> _].
    assert (Hin : forall x,
              reports (preamble arguments ++ dots (List.length before)
                       ++ trace (handleNotification handle data)) x ->
              reports (trace (handleNotification handle data)) x).
    { intros x H. apply reports_app in H. destruct H as [H|H].
      - apply reports_preamble in H. contradiction.
      - apply reports_app in H. destruct H as [H|H]; [|exact H].
        apply reports_dots in H. contradiction. }
    intros H H'. apply (handler_reports_one handle data); apply Hin; assumption.
Qed.

Lemma run_reports_one_outcome_witness :
  AuthKeyCaptured [x5a; xa5] = AuthKeyCaptured [x5a; xa5].
Proof.
  apply (run_reports_one_outcome auth_arguments
           [NoNotification; Notification AUTH_HANDLE [x00; x00; x00; x5a; xa5]]).
  - constructor. vm_compute. tauto.
  - constructor. vm_compute. tauto.
Defined.

(* ================================================================== *)
(** ** Further properties of discovery *)

Section ScanMore.

Variable store : ref -> ScanEntry.

Lemma existsb_switchmate_field (fields : list (Z * string * string)) :
  existsb switchmate_field fields = true <-> matching fields.
Proof.
  unfold matching. rewrite existsb_exists. split.
  - intros ([[adtype desc] value] & Hin & Hf).
    apply is_switchmate_spec in Hf. destruct Hf as [-> ->].
    exists desc. exact Hin.
  - intros [desc Hin]. exists (SERVICES_AD_TYPE, desc, SWITCHMATE_SERVICE).
    split; [exact Hin|]. apply is_switchmate_spec. auto.
Qed.

(** The inner loop adds [dev] at most once, and only when some field
    matches and [dev] is not yet in the list. *)
Lemma scan_fields_eq (dev : ref) (fields : list (Z * string * string))
    (switchmates : list ref) :
  scan_fields dev fields switchmates =
  if existsb switchmate_field fields && negb (mem dev switchmates)
  then (switchmates ++ [dev])%list else switchmates.
Proof.
  revert switchmates.
  induction fields as [|[[adtype desc] value] fields IH]; intros switchmates.
  - reflexivity.
  - cbn [scan_fields existsb switchmate_field].
    destruct ((adtype =? SERVICES_AD_TYPE) && (value =? SWITCHMATE_SERVICE)%string).
    + destruct (mem dev switchmates) eqn:Hmem; cbn [andb negb orb]; rewrite IH.
      * rewrite Hmem, andb_false_r. reflexivity.
      * assert (Hin : mem dev (switchmates ++ [dev]) = true).
        { apply mem_In, in_or_app. right. left. reflexivity. }
        rewrite Hin, andb_false_r. reflexivity.
    + cbn [andb orb]. apply IH.
Qed.

Lemma scan_devices_filter (devices switchmates : list ref) :
  NoDup devices ->
  (forall dev, In dev devices -> ~ In dev switchmates) ->
  scan_devices store devices switchmates =
  (switchmates
   ++ filter (fun dev => existsb switchmate_field (getScanData (store dev))) devices)%list.
Proof.
  revert switchmates.
  induction devices as [|dev devices IH]; intros switchmates Hnd Hfresh.
  - cbn. rewrite app_nil_r. reflexivity.
  - inversion Hnd as [|? ? Hnotin Hnd']; subst.
    cbn [scan_devices filter]. rewrite scan_fields_eq.
    assert (Hmem : mem dev switchmates = false).
    { destruct (mem dev switchmates) eqn:E; [|reflexivity].
      apply mem_In in E. exfalso. apply (Hfresh dev); [left; reflexivity|exact E]. }
    rewrite Hmem, andb_true_r.
    destruct (existsb switchmate_field (getScanData (store dev))).
    + rewrite IH; [rewrite <- app_assoc; reflexivity|exact Hnd'|].
      intros d Hd Hin. apply in_app_or in Hin. destruct Hin as [Hin|[<-|[]]].
      * apply (Hfresh d); [right; exact Hd|exact Hin].
      * contradiction.
    + apply IH; [exact Hnd'|]. intros d Hd. apply Hfresh. right. exact Hd.
Qed.

End ScanMore.

(** X10. On a list of distinct devices, which is what the scanner returns,
    [scan] keeps the devices with a matching field in the order in which
    they were scanned. *)
Theorem scan_keeps_order (store : ref -> ScanEntry) (devices : list ref) :
  NoDup devices ->
  scan_switchmates store devices =
  filter (fun dev => existsb switchmate_field (getScanData (store dev))) devices.
Proof.
  intros Hnd. unfold scan_switchmates.
  rewrite scan_devices_filter; [reflexivity|exact Hnd|].
  intros dev _ [].
Qed.

Lemma scan_keeps_order_witness :
  scan_switchmates sample_store [2; 0; 1]%nat =
  filter (fun dev => existsb switchmate_field (getScanData (sample_store dev)))
         [2; 0; 1]%nat.
Proof.
  apply (scan_keeps_order sample_store [2; 0; 1]%nat).
  repeat constructor; cbn; intuition discriminate.
Defined.

(** X11. [scan] prints that no Switchmate was found exactly when no scanned
    device has a services field equal to the Switchmate UUID. *)
Theorem scan_reports_none (store : ref -> ScanEntry) (devices : list ref) :
  scan store devices =
    ([Stdout ("Scanning..." ++ newline)%string; Flush;
      Stdout ("No Switchmate devices found" ++ newline)%string], Returns tt)
  <-> forall dev, In dev devices -> ~ advertises store SERVICES_AD_TYPE dev.
Proof.
  rewrite scan_eq.
  assert (Hmem : forall dev, In dev (scan_switchmates store devices)
                 <-> In dev devices /\ advertises store SERVICES_AD_TYPE dev).
  { intros dev. unfold scan_switchmates. rewrite scan_devices_In. cbn [In]. tauto. }
  destruct (scan_switchmates store devices) as [|found others].
  - split; [|reflexivity].
    intros _ dev Hin Hadv. apply (proj2 (Hmem dev)). auto.
  - split.
    + intros E. cbn in E. discriminate E.
    + intros Hnone. exfalso.
      destruct (proj1 (Hmem found)) as [Hin Hadv]; [left; reflexivity|].
      exact (Hnone found Hin Hadv).
Qed.

(* ================================================================== *)
(** ** Status *)

Lemma bind_returns {A B} (p : prog A) (k : A -> prog B) (t : list event) (a : A) :
  p = (t, Returns a) ->
  bind p k = ((t ++ trace (k a))%list, outcome (k a)).
Proof. intros ->. unfold bind. destruct (k a); reflexivity. Qed.

Lemma bind_ret_l {A B} (a : A) (k : A -> prog B) : bind (ret a) k = k a.
Proof. unfold bind, ret. destruct (k a); reflexivity. Qed.

Lemma bind_assoc {A B C} (p : prog A) (k : A -> prog B) (h : B -> prog C) :
  bind (bind p k) h = bind p (fun a => bind (k a) h).
Proof.
  destruct p as [t [a|code|e]]; cbn [bind]; try reflexivity.
  destruct (k a) as [t' [b|code|e]]; cbn [bind]; try reflexivity.
  destruct (h b) as [t'' o]. rewrite app_assoc. reflexivity.
Qed.

Lemma bind_ext_returned {A B} (p : prog A) (k k' : A -> prog B) :
  (forall t a, p = (t, Returns a) -> k a = k' a) -> bind p k = bind p k'.
Proof.
  intros H. destruct p as [t [a|code|e]]; cbn [bind]; try reflexivity.
  rewrite (H t a eq_refl). reflexivity.
Qed.

Lemma connects_app (t t' : list event) :
  connects (t ++ t') = (connects t ++ connects t')%list.
Proof.
  induction t as [|e t IH]; [reflexivity|].
  destruct e; cbn [app connects]; rewrite ?IH; reflexivity.
Qed.



Section StatusFacts.

Variable peripheral : string -> PeripheralData.
Variable str_scanData : list (Z * string * string) -> string.
Variable hex : Z -> string.

Lemma print_characteristics_eq (characteristics : list Characteristic) :
  print_characteristics hex characteristics =
  (map (fun character =>
          line ("   " ++ hex (getHandle character) ++ ": "
                ++ propertiesToString character))
       characteristics, Returns tt).
Proof.
  induction characteristics as [|character rest IH]; [reflexivity|].
  cbn [print_characteristics map]. rewrite IH. reflexivity.
Qed.

(** The three ways [handleDiscovery] can go. *)
Lemma handleDiscovery_eq (mac_address : option string) (seen : list string)
    (dev : ScanEntry) :
  handleDiscovery peripheral str_scanData hex mac_address seen dev =
  if other_address mac_address dev || existsb (String.eqb (addr dev)) seen then
    ([], Returns seen)
  else if is_switchmate_entry dev then
    (device_report peripheral str_scanData hex dev,
     match mac_address with
     | Some _ => Exits 0
     | None => Returns (seen ++ [addr dev])%list
     end)
  else ([], Returns (seen ++ [addr dev])%list).
Proof.
  unfold handleDiscovery.
  destruct (other_address mac_address dev); [reflexivity|].
  destruct (existsb (String.eqb (addr dev)) seen); [reflexivity|].
  cbn [orb]. cbv zeta.
  destruct (is_switchmate_entry dev); [|reflexivity].
  rewrite print_characteristics_eq. unfold device_report.
  destruct mac_address; cbn [bind print emit app sys_exit ret];
    rewrite ?app_nil_r; reflexivity.
Qed.

Lemma connects_device_report (dev : ScanEntry) :
  connects (device_report peripheral str_scanData hex dev) = [addr dev].
Proof.
  unfold device_report, line. cbn [connects]. f_equal.
  induction (getCharacteristics (peripheral (addr dev))) as [|c l IH];
    [reflexivity|exact IH].
Qed.

Lemma passive_device_report (dev : ScanEntry) :
  Forall passive (device_report peripheral str_scanData hex dev).
Proof.
  unfold device_report, line. repeat (constructor; [exact I|]).
  apply Forall_forall. intros e He. apply in_map_iff in He.
  destruct He as (c & <- & _). exact I.
Qed.

(** One step of [process]. *)
Lemma process_cons (mac_address : option string) (dev : ScanEntry)
    (rest : list ScanEntry) (seen : list string) :
  process peripheral str_scanData hex mac_address (dev :: rest) seen =
  if other_address mac_address dev || existsb (String.eqb (addr dev)) seen then
    process peripheral str_scanData hex mac_address rest seen
  else if is_switchmate_entry dev then
    match mac_address with
    | Some _ => (device_report peripheral str_scanData hex dev, Exits 0)
    | None =>
        let p := process peripheral str_scanData hex mac_address rest
                   (seen ++ [addr dev]) in
        ((device_report peripheral str_scanData hex dev ++ trace p)%list, outcome p)
    end
  else process peripheral str_scanData hex mac_address rest (seen ++ [addr dev]).
Proof.
  cbn [process]. rewrite handleDiscovery_eq.
  destruct (other_address mac_address dev || existsb (String.eqb (addr dev)) seen);
    [apply bind_ret_l|].
  destruct (is_switchmate_entry dev); [|apply (bind_ret_l (seen ++ [addr dev]))].
  destruct mac_address; [reflexivity|].
  apply bind_returns. reflexivity.
Qed.

Lemma process_app (mac_address : option string) (d1 d2 : list ScanEntry)
    (seen : list string) :
  process peripheral str_scanData hex mac_address (d1 ++ d2) seen =
  bind (process peripheral str_scanData hex mac_address d1 seen)
       (fun seen' => process peripheral str_scanData hex mac_address d2 seen').
Proof.
  revert seen. induction d1 as [|dev d1 IH]; intros seen.
  - cbn [app process]. rewrite bind_ret_l. reflexivity.
  - cbn [app process]. rewrite bind_assoc.
    apply bind_ext_returned. intros t seen' _. apply IH.
Qed.

(** With an address given, nothing happens once that address is in
    [seen]. *)
Lemma process_single_seen (m : string) (discoveries : list ScanEntry)
    (seen : list string) :
  In m seen ->
  process peripheral str_scanData hex (Some m) discoveries seen
  = ([], Returns seen).
Proof.
  intros Hin. induction discoveries as [|dev rest IH]; [reflexivity|].
  rewrite process_cons.
  replace (other_address (Some m) dev || existsb (String.eqb (addr dev)) seen)
    with true; [exact IH|].
  symmetry. cbn [other_address].
  destruct (String.eqb_spec m (addr dev)) as [E|_]; [|reflexivity].
  cbn [negb orb]. apply existsb_exists. exists m.
  split; [exact Hin|]. apply String.eqb_eq. symmetry. exact E.
Qed.

Lemma process_single (m : string) (discoveries : list ScanEntry)
    (seen : list string) :
  ~ In m seen ->
  process peripheral str_scanData hex (Some m) discoveries seen =
  match find (fun dev => (m =? addr dev)%string) discoveries with
  | Some dev =>
      if is_switchmate_entry dev
      then (device_report peripheral str_scanData hex dev, Exits 0)
      else ([], Returns (seen ++ [m])%list)
  | None => ([], Returns seen)
  end.
Proof.
  intros Hnotin. induction discoveries as [|dev rest IH]; [reflexivity|].
  rewrite process_cons. cbn [find other_address].
  destruct (String.eqb_spec m (addr dev)) as [E|_]; [|exact IH].
  cbn [negb orb].
  assert (Hseen : existsb (String.eqb (addr dev)) seen = false).
  { destruct (existsb (String.eqb (addr dev)) seen) eqn:Ex; [|reflexivity].
    apply existsb_exists in Ex. destruct Ex as (a & Ha & Heq).
    apply String.eqb_eq in Heq. subst. contradiction. }
  rewrite Hseen. destruct (is_switchmate_entry dev); [reflexivity|].
  rewrite <- E. apply process_single_seen.
  apply in_or_app. right. left. reflexivity.
Qed.

(** What [process] connects to, and that it stays passive. *)
Lemma process_invariant (mac_address : option string)
    (discoveries : list ScanEntry) (seen : list string) :
  let p := process peripheral str_scanData hex mac_address discoveries seen in
  NoDup (connects (trace p)) /\
  Forall passive (trace p) /\
  (forall a, In a (connects (trace p)) ->
     ~ In a seen /\
     exists dev, In dev discoveries /\ addr dev = a /\
                 is_switchmate_entry dev = true /\
                 other_address mac_address dev = false) /\
  (mac_address = None -> exists seen', outcome p = Returns seen').
Proof.
  revert seen. induction discoveries as [|dev rest IH]; intros seen.
  - cbn. split; [constructor|]. split; [constructor|].
    split; [intros a []|]. intros _. exists seen. reflexivity.
  - cbv zeta. rewrite process_cons.
    assert (Hlift : forall seen',
      (forall a, In a seen -> In a seen') ->
      let p := process peripheral str_scanData hex mac_address rest seen' in
      NoDup (connects (trace p)) /\
      Forall passive (trace p) /\
      (forall a, In a (connects (trace p)) ->
         ~ In a seen /\
         exists d, In d (dev :: rest) /\ addr d = a /\
                   is_switchmate_entry d = true /\
                   other_address mac_address d = false) /\
      (mac_address = None -> exists s, outcome p = Returns s)).
    { intros seen' Hsub. cbv zeta.
      destruct (IH seen') as (Hnd & Hpas & Hcon & Hret).
      split; [exact Hnd|]. split; [exact Hpas|]. split; [|exact Hret].
      intros a Ha. destruct (Hcon a Ha) as (Hnot & d & Hd & Hrest).
      split; [intros Hin; apply Hnot, Hsub, Hin|].
      exists d. split; [right; exact Hd|exact Hrest]. }
    destruct (other_address mac_address dev) eqn:Hother; cbn [orb].
    { apply Hlift. auto. }
    destruct (existsb (String.eqb (addr dev)) seen) eqn:Hseen.
    { apply Hlift. auto. }
    assert (Hfresh : ~ In (addr dev) seen).
    { intros Hin.
      assert (Ht : existsb (String.eqb (addr dev)) seen = true).
      { apply existsb_exists. exists (addr dev).
        split; [exact Hin|apply String.eqb_refl]. }
      rewrite Ht in Hseen. discriminate Hseen. }
    destruct (is_switchmate_entry dev) eqn:Hsw.
    2:{ apply Hlift. intros a Ha. apply in_or_app. left. exact Ha. }
    assert (Hself : exists d, In d (dev :: rest) /\ addr d = addr dev /\
                              is_switchmate_entry d = true /\
                              other_address mac_address d = false).
    { exists dev. split; [left; reflexivity|]. auto. }
    destruct mac_address as [m|].
    + cbn [trace outcome fst snd]. rewrite connects_device_report.
      split; [repeat constructor; intros []|].
      split; [apply passive_device_report|].
      split; [|discriminate].
      intros a [<-|[]]. split; [exact Hfresh|exact Hself].
    + cbv zeta. cbn [trace outcome fst snd].
      destruct (IH (seen ++ [addr dev])%list) as (Hnd & Hpas & Hcon & Hret).
      rewrite connects_app, connects_device_report. cbn [app].
      split.
      { constructor; [|exact Hnd].
        intros Hin. destruct (Hcon _ Hin) as [Hnot _].
        apply Hnot. apply in_or_app. right. left. reflexivity. }
      split; [apply Forall_app; split; [apply passive_device_report|exact Hpas]|].
      split; [|exact Hret].
      intros a [<-|Ha]; [split; [exact Hfresh|exact Hself]|].
      destruct (Hcon a Ha) as (Hnot & d & Hd & Hrest).
      split; [intros Hin; apply Hnot; apply in_or_app; left; exact Hin|].
      exists d. split; [right; exact Hd|exact Hrest].
Qed.

(** After a run of [process] that returned, every discovery that passed
    the address test has its address in [seen]. *)
Lemma process_seen (mac_address : option string) (discoveries : list ScanEntry)
    (seen seen' : list string) (t : list event) :
  process peripheral str_scanData hex mac_address discoveries seen
  = (t, Returns seen') ->
  (forall a, In a seen -> In a seen') /\
  (forall dev, In dev discoveries ->
     other_address mac_address dev = true \/ In (addr dev) seen').
Proof.
  revert seen t. induction discoveries as [|dev rest IH]; intros seen t.
  - cbn. intros E. injection E as <- <-. split; [auto|intros dev []].
  - rewrite process_cons.
    assert (Hlift : forall s t',
      (forall a, In a seen -> In a s) ->
      (other_address mac_address dev = true \/ In (addr dev) s) ->
      process peripheral str_scanData hex mac_address rest s = (t', Returns seen') ->
      (forall a, In a seen -> In a seen') /\
      (forall d, In d (dev :: rest) ->
         other_address mac_address d = true \/ In (addr d) seen')).
    { intros s t' Hsub Hdev E. destruct (IH s t' E) as [Hmono Hall].
      split; [intros a Ha; apply Hmono, Hsub, Ha|].
      intros d [<-|Hd]; [|apply Hall, Hd].
      destruct Hdev as [Ho|Hin]; [left; exact Ho|right; apply Hmono, Hin]. }
    destruct (other_address mac_address dev) eqn:Hother; cbn [orb].
    { apply Hlift; auto. }
    destruct (existsb (String.eqb (addr dev)) seen) eqn:Hseen.
    { apply Hlift; [auto|]. right.
      apply existsb_exists in Hseen. destruct Hseen as (a & Ha & Heq).
      apply String.eqb_eq in Heq. subst. exact Ha. }
    assert (Hnew : In (addr dev) (seen ++ [addr dev])%list)
      by (apply in_or_app; right; left; reflexivity).
    assert (Hsub : forall a, In a seen -> In a (seen ++ [addr dev])%list)
      by (intros a Ha; apply in_or_app; left; exact Ha).
    destruct (is_switchmate_entry dev).
    + destruct mac_address as [m|]; [discriminate|].
      cbv zeta. intros E.
      destruct (process peripheral str_scanData hex None rest (seen ++ [addr dev])%list)
        as [t' o] eqn:Ep.
      cbn [trace outcome fst snd] in E. injection E as _ ->.
      apply (Hlift _ t' Hsub (or_intror Hnew) Ep).
    + apply Hlift; auto.
Qed.

(** Addresses enter [seen] only from the discoveries. *)
Lemma process_seen_from (mac_address : option string)
    (discoveries : list ScanEntry) (seen seen' : list string) (t : list event) :
  process peripheral str_scanData hex mac_address discoveries seen
  = (t, Returns seen') ->
  forall a, In a seen' -> In a seen \/ In a (map addr discoveries).
Proof.
  revert seen t. induction discoveries as [|dev rest IH]; intros seen t.
  - cbn. intros E. injection E as <- <-. auto.
  - rewrite process_cons.
    assert (Hlift : forall s t',
      (forall a, In a s -> In a seen \/ a = addr dev) ->
      process peripheral str_scanData hex mac_address rest s = (t', Returns seen') ->
      forall a, In a seen' -> In a seen \/ In a (map addr (dev :: rest))).
    { intros s t' Hs E a Ha. destruct (IH s t' E a Ha) as [H|H].
      - destruct (Hs a H) as [H' | ->]; [left; exact H'|right; left; reflexivity].
      - right. right. exact H. }
    assert (Hext : forall a, In a (seen ++ [addr dev])%list ->
                             In a seen \/ a = addr dev).
    { intros a Ha. apply in_app_or in Ha.
      destruct Ha as [Ha|[<-|[]]]; auto. }
    destruct (other_address mac_address dev || existsb (String.eqb (addr dev)) seen).
    { apply Hlift. auto. }
    destruct (is_switchmate_entry dev); [|apply Hlift; exact Hext].
    destruct mac_address as [m|]; [discriminate|].
    cbv zeta. intros E.
    destruct (process peripheral str_scanData hex None rest (seen ++ [addr dev])%list)
      as [t' o] eqn:Ep.
    cbn [trace outcome fst snd] in E. injection E as _ ->.
    apply (Hlift _ t' Hext Ep).
Qed.

Lemma status_eq (mac_address : option string) (discoveries : list ScanEntry) :
  let p := process peripheral str_scanData hex mac_address discoveries [] in
  status peripheral str_scanData hex mac_address discoveries =
  ((status_header ++ trace p)%list,
   match outcome p with
   | Returns _ => Returns tt
   | Exits code => Exits code
   | Raises e => Raises e
   end).
Proof.
  cbv zeta. unfold status.
  destruct (process peripheral str_scanData hex mac_address discoveries [])
    as [t [s|code|e]]; cbn [bind print emit ret app trace outcome fst snd];
    rewrite ?app_nil_r; reflexivity.
Qed.

End StatusFacts.

Lemma passive_trace (t : list event) :
  Forall passive t -> writes t = [] /\ ~ In Disconnect t.
Proof.
  induction t as [|e t IH]; intros H; [split; [reflexivity|intros []]|].
  inversion H as [|? ? He Ht]; subst. destruct (IH Ht) as [Hw Hd].
  destruct e; cbn in He; try contradiction; cbn [writes];
    (split; [exact Hw|intros [E|Hin]; [discriminate E|exact (Hd Hin)]]).
Qed.

(** X12. With an address given, [status] depends only on the first
    advertisement from that address: when it lists the Switchmate UUID the
    device is examined and the process exits with status 0, otherwise
    nothing is examined and [status] returns. *)
Theorem status_single_address (peripheral : string -> PeripheralData)
    (str_scanData : list (Z * string * string) -> string) (hex : Z -> string)
    (m : string) (discoveries : list ScanEntry) :
  status peripheral str_scanData hex (Some m) discoveries =
  match find (fun dev => (m =? addr dev)%string) discoveries with
  | Some dev =>
      if is_switchmate_entry dev
      then ((status_header ++ device_report peripheral str_scanData hex dev)%list,
            Exits 0)
      else (status_header, Returns tt)
  | None => (status_header, Returns tt)
  end.
Proof.
  rewrite status_eq. cbv zeta.
  rewrite process_single by (intros []).
  destruct (find (fun dev => (m =? addr dev)%string) discoveries) as [dev|];
    [|reflexivity].
  destruct (is_switchmate_entry dev); reflexivity.
Qed.

(** X13. [status] connects to an address at most once, and only to
    addresses of discovered devices that list the Switchmate UUID and pass
    the address test. *)
Theorem status_connects (peripheral : string -> PeripheralData)
    (str_scanData : list (Z * string * string) -> string) (hex : Z -> string)
    (mac_address : option string) (discoveries : list ScanEntry) :
  let t := trace (status peripheral str_scanData hex mac_address discoveries) in
  NoDup (connects t) /\
  forall a, In a (connects t) ->
    exists dev, In dev discoveries /\ addr dev = a /\
                is_switchmate_entry dev = true /\
                other_address mac_address dev = false.
Proof.
  cbv zeta. rewrite status_eq. cbn [trace fst].
  rewrite connects_app. cbn [status_header connects app].
  destruct (process_invariant peripheral str_scanData hex mac_address discoveries [])
    as (Hnd & _ & Hcon & _).
  split; [exact Hnd|]. intros a Ha. apply (Hcon a Ha).
Qed.

(** X14. [status] only reads: it never writes a characteristic and never
    disconnects. *)
Theorem status_read_only (peripheral : string -> PeripheralData)
    (str_scanData : list (Z * string * string) -> string) (hex : Z -> string)
    (mac_address : option string) (discoveries : list ScanEntry) :
  let t := trace (status peripheral str_scanData hex mac_address discoveries) in
  writes t = [] /\ ~ In Disconnect t.
Proof.
  cbv zeta. rewrite status_eq. cbn [trace fst].
  apply passive_trace. apply Forall_app. split.
  - repeat constructor.
  - apply (process_invariant peripheral str_scanData hex mac_address discoveries []).
Qed.

(** X15. Without an address, [status] has no early exit: it returns, and
    it connects to every device whose first advertisement lists the
    Switchmate UUID. *)
Theorem status_all_devices (peripheral : string -> PeripheralData)
    (str_scanData : list (Z * string * string) -> string) (hex : Z -> string)
    (discoveries : list ScanEntry) :
  let p := status peripheral str_scanData hex None discoveries in
  outcome p = Returns tt /\
  forall d1 dev d2,
    discoveries = (d1 ++ dev :: d2)%list ->
    ~ In (addr dev) (map addr d1) ->
    is_switchmate_entry dev = true ->
    In (addr dev) (connects (trace p)).
Proof.
  cbv zeta. rewrite status_eq. cbn [trace outcome fst snd]. split.
  - destruct (process_invariant peripheral str_scanData hex None discoveries [])
      as (_ & _ & _ & Hret).
    destruct (Hret eq_refl) as [s ->]. reflexivity.
  - intros d1 dev d2 -> Hfirst Hsw.
    rewrite connects_app. cbn [status_header connects app].
    rewrite process_app.
    destruct (process_invariant peripheral str_scanData hex None d1 [])
      as (_ & _ & _ & Hret).
    destruct (Hret eq_refl) as [s Hs].
    destruct (process peripheral str_scanData hex None d1 []) as [t o] eqn:Ep.
    cbn [outcome snd] in Hs. subst o.
    rewrite (bind_returns _ _ t s eq_refl). cbn [trace fst].
    rewrite connects_app. apply in_or_app. right.
    rewrite process_cons. cbn [other_address orb].
    assert (Hseen : existsb (String.eqb (addr dev)) s = false).
    { destruct (existsb (String.eqb (addr dev)) s) eqn:Ex; [|reflexivity].
      apply existsb_exists in Ex. destruct Ex as (a & Ha & Heq).
      apply String.eqb_eq in Heq. subst a.
      destruct (process_seen_from peripheral str_scanData hex None d1 [] s t Ep
                  (addr dev) Ha) as [[]|Hin].
      contradiction. }
    rewrite Hseen, Hsw. cbv zeta. cbn [trace fst].
    rewrite connects_app, connects_device_report. left. reflexivity.
Qed.

Lemma status_all_devices_witness :
  In (addr (sample_store 0%nat))
     (connects (trace (status sample_peripheral sample_str sample_hex None
                         [sample_store 2%nat; sample_store 0%nat; sample_store 1%nat]))).
Proof.
  refine (proj2 (status_all_devices sample_peripheral sample_str sample_hex
                   [sample_store 2%nat; sample_store 0%nat; sample_store 1%nat])
            [sample_store 2%nat] (sample_store 0%nat) [sample_store 1%nat] eq_refl _ eq_refl).
  cbn. intros [E|[]]. discriminate E.
Defined.

(** X16. An advertisement from an address that was already discovered is
    ignored, whatever it carries: leaving it out does not change the run. *)
Theorem status_ignores_repeats (peripheral : string -> PeripheralData)
    (str_scanData : list (Z * string * string) -> string) (hex : Z -> string)
    (mac_address : option string) (d1 d2 : list ScanEntry) (dev : ScanEntry) :
  In (addr dev) (map addr d1) ->
  status peripheral str_scanData hex mac_address (d1 ++ dev :: d2)
  = status peripheral str_scanData hex mac_address (d1 ++ d2).
Proof.
  intros Hrep. apply in_map_iff in Hrep. destruct Hrep as (first & Haddr & Hfirst).
  assert (Hp : process peripheral str_scanData hex mac_address (d1 ++ dev :: d2) []
               = process peripheral str_scanData hex mac_address (d1 ++ d2) []);
    [|unfold status; rewrite Hp; reflexivity].
  rewrite !process_app.
  apply bind_ext_returned. intros t seen' Ep.
  rewrite process_cons.
  destruct (process_seen peripheral str_scanData hex mac_address d1 [] seen' t Ep)
    as [_ Hall].
  replace (other_address mac_address dev || existsb (String.eqb (addr dev)) seen')
    with true; [reflexivity|].
  symmetry. apply orb_true_iff.
  destruct (Hall first Hfirst) as [Hother|Hseen].
  - left. unfold other_address in *. rewrite <- Haddr. exact Hother.
  - right. apply existsb_exists. exists (addr dev).
    split; [rewrite <- Haddr; exact Hseen|apply String.eqb_refl].
Qed.

Lemma status_ignores_repeats_witness :
  status sample_peripheral sample_str sample_hex None
    ([sample_store 2%nat; sample_store 1%nat]
     ++ {| addr := addr (sample_store 1%nat);
           getScanData := getScanData (sample_store 0%nat) |} :: [sample_store 0%nat])
  = status sample_peripheral sample_str sample_hex None
      ([sample_store 2%nat; sample_store 1%nat] ++ [sample_store 0%nat]).
Proof.
  apply (status_ignores_repeats sample_peripheral sample_str sample_hex None
           [sample_store 2%nat; sample_store 1%nat] [sample_store 0%nat]
           {| addr := addr (sample_store 1%nat);
              getScanData := getScanData (sample_store 0%nat) |}).
  right. left. reflexivity.
Defined.


